(** * Named-matrix codec of the FIFF reader/writer ([mne/_fiff/matrix.py])

    A shallow embedding of [_transpose_named_matrix], [_read_named_matrix]
    and [write_named_matrix], and the properties of the codec stated in
    the specification.

    Python integers are [Z], [len] and array sizes are [nat], strings are
    [string], the matrix dictionary is a record, exceptions are values of
    [exn] carried by [result].  The writer runs in a state-and-exception
    monad whose state holds the matrix dictionary and the output stream, so
    that what a failed call leaves behind can be stated. *)

From Stdlib Require Import ZArith QArith List String Ascii Bool Lia.
Import ListNotations.

#[local] Set Warnings "-register-all,-notation-for-abbreviation".

Local Open Scope string_scope.
Local Open Scope list_scope.
Local Open Scope Z_scope.

(** ** Exceptions and results *)

(** The texts of the [ValueError]s the module raises.  The specification
    names them: [MatrixDataMissing] is its DataMissing,
    [RowsDoNotMatch]/[ColsDoNotMatch] its DimensionMismatch,
    [CannotWriteMatrix] its ShapeMismatch (with the numbers the f-string
    interpolates), [RowNamesLength]/[ColNamesLength] its
    LabelCountMismatch.  [AmbiguousTruthValue] is numpy's error for the
    truth value of an array that has not exactly one element,
    [NotEnoughValues] Python's error for unpacking a shape of one
    dimension into two names. *)
Inductive message : Type :=
| MatrixDataMissing
| RowsDoNotMatch
| ColsDoNotMatch
| CannotWriteMatrix (nrow ncol n_tot : Z) (size : nat) (ratio : Q)
| RowNamesLength
| ColNamesLength
| AmbiguousTruthValue
| NotEnoughValues.

Inductive exn : Type :=
| ValueError (m : message)
| ZeroDivisionError
| OverflowError
| IndexError
| AttributeError.

Inductive result (A : Type) : Type :=
| Ok (a : A)
| Raise (e : exn).

Arguments Ok {A} a.
Arguments Raise {A} e.

Definition rbind {A B : Type} (r : result A) (k : A -> result B) : result B :=
  match r with
  | Ok a => k a
  | Raise e => Raise e
  end.

Declare Scope result_scope.
Delimit Scope result_scope with result.
Notation "x <- r ;; k" := (rbind r (fun x => k))
  (at level 61, r at next level, right associativity) : result_scope.
Notation "r ;; k" := (rbind r (fun _ => k))
  (at level 61, right associativity) : result_scope.

(** ** Python arithmetic used by the writer *)

(** [float(n)] for a non-negative size; rounding is not modelled, the
    quotient is the exact rational. *)
Definition float (n : nat) : Q := inject_Z (Z.of_nat n).

(** [a / b] on floats: raises [ZeroDivisionError] on a zero divisor. *)
Definition truediv (a b : Q) : result Q :=
  if Qeq_bool b 0 then Raise ZeroDivisionError else Ok (a / b)%Q.

(** The least magnitude of an integer that no float holds: an integer is
    rounded to the nearest float, and from here on the nearest is past
    the largest one. *)
Definition float_limit : Z := 2 ^ 1024 - 2 ^ 970.

(** The conversion of an integer operand to a float: [OverflowError] for
    an integer too large to convert. *)
Definition to_float (a : Z) : result Q :=
  if Z.abs a <? float_limit then Ok (inject_Z a) else Raise OverflowError.

(** [a / b] for an integer [a] and a float [b]: the integer is converted
    first, then the divisor is looked at. *)
Definition int_truediv (a : Z) (b : Q) : result Q :=
  match to_float a with
  | Ok x => truediv x b
  | Raise e => Raise e
  end.

(** [r > 0] *)
Definition Qpositive (r : Q) : bool := (0 <? Qnum r)%Z.

(** ** Strings: [str.join] and [str.split] with a one-character separator *)

Definition colon : ascii := ":"%char.

(** [sep.join(l)] *)
Fixpoint join (sep : string) (l : list string) : string :=
  match l with
  | [] => ""
  | [x] => x
  | x :: rest => (x ++ sep ++ join sep rest)%string
  end.

(** [s.split(c)]: never empty, [''.split(':') == ['']]. *)
Fixpoint split (c : ascii) (s : string) : list string :=
  match s with
  | EmptyString => [""]
  | String a s' =>
      if Ascii.eqb a c then "" :: split c s'
      else match split c s' with
           | h :: t => String a h :: t
           | [] => [String a ""]
           end
  end.

(** [c in s] *)
Fixpoint contains (c : ascii) (s : string) : bool :=
  match s with
  | EmptyString => false
  | String a s' => Ascii.eqb a c || contains c s'
  end.

(** ** Two-dimensional numpy arrays

    An array is a view on a buffer: a shape and the strides (in elements)
    of its two axes.  [a.T] is the view with shape and strides reversed;
    the buffer is shared, not copied.  Elements are carried as they are:
    the codec computes nothing with them but the comparison of a
    one-element payload with an integer; the model takes them as
    integers. *)

Definition scalar : Type := Z.

Record ndarray : Type := mk_ndarray {
  buf : list scalar;
  shape : nat * nat;
  strides : nat * nat
}.

Definition swap {A B : Type} (p : A * B) : B * A := (snd p, fst p).

(** [a.size] *)
Definition size (a : ndarray) : nat := (fst (shape a) * snd (shape a))%nat.

(** [a.T] *)
Definition T (a : ndarray) : ndarray :=
  {| buf := buf a; shape := swap (shape a); strides := swap (strides a) |}.

(** [a[i, j]] for indices in range *)
Definition getitem (a : ndarray) (i j : nat) : scalar :=
  nth (i * fst (strides a) + j * snd (strides a))%nat (buf a) 0.

(** [a.tolist()]: the rows, each the list of its elements *)
Definition tolist (a : ndarray) : list (list scalar) :=
  map (fun i => map (fun j => getitem a i j) (seq 0 (snd (shape a))))
      (seq 0 (fst (shape a))).

(** [a.ravel()]: the elements in row-major order *)
Definition ravel (a : ndarray) : list scalar := List.concat (tolist a).

(** [numpy.array_equal(a, b)]: same shape, same elements *)
Definition array_equal (a b : ndarray) : Prop :=
  shape a = shape b /\ tolist a = tolist b.

(** A C-contiguous array over exactly its buffer. *)
Definition c_contiguous (a : ndarray) : Prop :=
  strides a = (snd (shape a), 1%nat) /\ List.length (buf a) = size a.

(** ** The matrix dictionary *)

Record NamedMatrix : Type := mk_mat {
  nrow : Z;
  ncol : Z;
  row_names : list string;
  col_names : list string;
  data : ndarray
}.

(** [_transpose_named_matrix(mat)]: the dictionary after the three
    assignments; each right-hand side is evaluated before its targets
    are assigned. *)
Definition _transpose_named_matrix (mat : NamedMatrix) : NamedMatrix :=
  let mat1 := {| nrow := ncol mat; ncol := nrow mat;
                 row_names := row_names mat; col_names := col_names mat;
                 data := data mat |} in
  let mat2 := {| nrow := nrow mat1; ncol := ncol mat1;
                 row_names := col_names mat1; col_names := row_names mat1;
                 data := data mat1 |} in
  {| nrow := nrow mat2; ncol := ncol mat2;
     row_names := row_names mat2; col_names := col_names mat2;
     data := T (data mat2) |}.

(** ** Tags, streams and tree nodes *)

(** What a decoded tag carries: [DInt v] the one-element integer array
    of an integer tag, [DStr s] the string of a string tag, [DMat a] the
    two-dimensional array of a matrix tag.  The decoding itself belongs to
    the tag reader; the codec only uses an integer's value, a string's
    [split] and an array's [shape]. *)
Inductive payload : Type :=
| DInt (v : Z)
| DStr (s : string)
| DMat (a : ndarray).

Record Tag : Type := mk_tag {
  tag_kind : Z;
  tag_data : payload
}.

(** What the write primitives append to a stream. *)
Inductive item : Type :=
| BlockStart (kind : Z)
| BlockEnd (kind : Z)
| TagItem (t : Tag).

Definition stream : Type := list item.

(** A node of the block tree: [node["block"]], [node["nchild"]],
    [node["children"]] and the node's own tags. *)
Inductive node : Type :=
  mk_node (block : Z) (nchild : nat) (children : list node)
          (directory : list Tag).

Definition block (n : node) : Z :=
  match n with mk_node b _ _ _ => b end.
Definition nchild (n : node) : nat :=
  match n with mk_node _ c _ _ => c end.
Definition children (n : node) : list node :=
  match n with mk_node _ _ l _ => l end.
Definition directory (n : node) : list Tag :=
  match n with mk_node _ _ _ d => d end.

(** The constants of [FIFF] the module refers to.  Their values are
    declared in [constants.py]; the codec is stated for any values. *)
Record constants : Type := mk_constants {
  FIFFB_MNE_NAMED_MATRIX : Z;
  FIFF_MNE_ROW_NAMES : Z;
  FIFF_MNE_COL_NAMES : Z;
  FIFF_MNE_NROW : Z;
  FIFF_MNE_NCOL : Z
}.

(** ** What Python does with a tag's data *)

(** [nrow, ncol = data.shape] with [data = tag.data]: a string has no
    shape, and the shape of an integer tag's array has one dimension,
    which does not unpack into two names. *)
Definition as_array (d : payload) : result ndarray :=
  match d with
  | DMat a => Ok a
  | DInt _ => Raise (ValueError NotEnoughValues)
  | DStr _ => Raise AttributeError
  end.

(** The truth value of [tag.data != n] for an integer [n]: an integer
    tag compares by value, a string never equals an integer; an array is
    compared element by element, and the result has a truth value, that of
    its element, only when it has exactly one element. *)
Definition ne_int (d : payload) (n : nat) : result bool :=
  match d with
  | DInt v => Ok (negb (v =? Z.of_nat n))
  | DStr _ => Ok true
  | DMat a =>
      if (size a =? 1)%nat then Ok (negb (getitem a 0 0 =? Z.of_nat n))
      else Raise (ValueError AmbiguousTruthValue)
  end.

(** [tag.data.split(":")]: only a string has [split]. *)
Definition split_colon (d : payload) : result (list string) :=
  match d with
  | DStr s => Ok (split colon s)
  | DInt _ | DMat _ => Raise AttributeError
  end.

(** ** The reader *)

Section Reader.

Variable FIFF : constants.

(** [has_tag(node, kind)] and [find_tag(fid, node, kind)] of [tag.py]. *)
Variable has_tag : node -> Z -> bool.
Variable find_tag : stream -> node -> Z -> option Tag.

Local Open Scope result_scope.

(** The [for k in range(node["nchild"])] loop over the indices still to
    visit: [Ok (Some child)] at the [break], [Ok None] when the loop runs
    to its [else], [IndexError] when [node["children"][k]] is out of
    range. *)
Fixpoint descend (nd : node) (matkind : Z) (ks : list nat)
  : result (option node) :=
  match ks with
  | [] => Ok None
  | k :: ks' =>
      match nth_error (children nd) k with
      | None => Raise IndexError
      | Some child =>
          if block child =? FIFFB_MNE_NAMED_MATRIX FIFF then
            if has_tag child matkind then Ok (Some child)
            else descend nd matkind ks'
          else descend nd matkind ks'
      end
  end.

(** Lines 44-61: the node the matrix is read from, or [None] where the
    function returns [None]. *)
Definition locate (nd : node) (matkind : Z) : result (option node) :=
  if negb (block nd =? FIFFB_MNE_NAMED_MATRIX FIFF) then
    descend nd matkind (seq 0 (nchild nd))
  else
    if negb (has_tag nd matkind) then Ok None
    else Ok (Some nd).

(** Lines 63-94, from the located node on. *)
Definition read_located (fid : stream) (nd : node) (matkind : Z)
           (transpose : bool) : result NamedMatrix :=
  match find_tag fid nd matkind with
  | None => Raise (ValueError MatrixDataMissing)
  | Some tag =>
      data <- as_array (tag_data tag) ;;
      let '(nrow, ncol) := shape data in
      (match find_tag fid nd (FIFF_MNE_NROW FIFF) with
       | Some tag =>
           differs <- ne_int (tag_data tag) nrow ;;
           if differs then Raise (ValueError RowsDoNotMatch) else Ok tt
       | None => Ok tt
       end) ;;
      (match find_tag fid nd (FIFF_MNE_NCOL FIFF) with
       | Some tag =>
           differs <- ne_int (tag_data tag) ncol ;;
           if differs then Raise (ValueError ColsDoNotMatch) else Ok tt
       | None => Ok tt
       end) ;;
      row_names <- match find_tag fid nd (FIFF_MNE_ROW_NAMES FIFF) with
                   | Some tag => split_colon (tag_data tag)
                   | None => Ok []
                   end ;;
      col_names <- match find_tag fid nd (FIFF_MNE_COL_NAMES FIFF) with
                   | Some tag => split_colon (tag_data tag)
                   | None => Ok []
                   end ;;
      let mat := {| nrow := Z.of_nat nrow; ncol := Z.of_nat ncol;
                    row_names := row_names; col_names := col_names;
                    data := data |} in
      Ok (if transpose then _transpose_named_matrix mat else mat)
  end.

(** [_read_named_matrix(fid, node, matkind, transpose=transpose)] *)
Definition _read_named_matrix (fid : stream) (nd : node) (matkind : Z)
           (transpose : bool) : result (option NamedMatrix) :=
  found <- locate nd matkind ;;
  match found with
  | None => Ok None
  | Some nd' =>
      mat <- read_located fid nd' matkind transpose ;;
      Ok (Some mat)
  end.

(** The node resolution as the specification words it: the node itself
    when it is a named-matrix block (provided it carries the tag),
    otherwise the first child, in order, that is a named-matrix block and
    carries the tag. *)
Definition resolve_spec (nd : node) (matkind : Z) : option node :=
  if block nd =? FIFFB_MNE_NAMED_MATRIX FIFF then
    if has_tag nd matkind then Some nd else None
  else
    find (fun c => (block c =? FIFFB_MNE_NAMED_MATRIX FIFF)
                   && has_tag c matkind)
         (children nd).

End Reader.

(** ** The writer *)

(** The state a call of the writer runs in: the matrix dictionary it is
    given and the stream it appends to. *)
Record world : Type := mk_world {
  w_mat : NamedMatrix;
  w_fid : stream
}.

(** A computation returns or raises, and leaves a state either way. *)
Definition M (A : Type) : Type := world -> result A * world.

Definition ret {A : Type} (a : A) : M A := fun w => (Ok a, w).

Definition raise {A : Type} (e : exn) : M A := fun w => (Raise e, w).

Definition bind {A B : Type} (c : M A) (k : A -> M B) : M B :=
  fun w => match c w with
           | (Ok a, w') => k a w'
           | (Raise e, w') => (Raise e, w')
           end.

Definition lift {A : Type} (r : result A) : M A := fun w => (r, w).

Declare Scope writer_scope.
Delimit Scope writer_scope with writer.
Notation "x <- c ;; k" := (bind c (fun x => k))
  (at level 61, c at next level, right associativity) : writer_scope.
Notation "c ;; k" := (bind c (fun _ => k))
  (at level 61, right associativity) : writer_scope.

(** [mat[field]] *)
Definition mat_get {A : Type} (field : NamedMatrix -> A) : M A :=
  fun w => (Ok (field (w_mat w)), w).

(** Appending one item to the stream. *)
Definition emit (i : item) : M unit :=
  fun w => (Ok tt, {| w_mat := w_mat w; w_fid := w_fid w ++ [i] |}).

(** Modelled from the spec: the block and tag writers of [write.py]
    ([start_block], [end_block], [write_int], [write_name_list],
    [write_float_matrix]), which are not part of the sources at hand.
    Each appends one marker or one typed tag; a name list is written as
    its colon-joined string, a matrix as its shape and its elements in
    row-major order. *)
Definition start_block (kind : Z) : M unit := emit (BlockStart kind).

Definition end_block (kind : Z) : M unit := emit (BlockEnd kind).

Definition write_int (kind : Z) (v : Z) : M unit :=
  emit (TagItem {| tag_kind := kind; tag_data := DInt v |}).

Definition write_name_list (kind : Z) (names : list string) : M unit :=
  emit (TagItem {| tag_kind := kind;
                   tag_data := DStr (join (String colon "") names) |}).

Definition stored (a : ndarray) : ndarray :=
  {| buf := ravel a; shape := shape a;
     strides := (snd (shape a), 1%nat) |}.

Definition write_float_matrix (kind : Z) (a : ndarray) : M unit :=
  emit (TagItem {| tag_kind := kind; tag_data := DMat (stored a) |}).

Section Writer.

Variable FIFF : constants.

Local Open Scope writer_scope.

(** Lines 110-119: the element-count check. *)
Definition check_size : M unit :=
  m_nrow <- mat_get nrow ;;
  m_ncol <- mat_get ncol ;;
  let n_tot := m_nrow * m_ncol in
  m_size <- mat_get (fun mat => size (data mat)) ;;
  if negb (Z.of_nat m_size =? n_tot) then
    ratio <- lift (int_truediv n_tot (float m_size)) ;;
    ratio <- (if (n_tot <? Z.of_nat m_size) && Qpositive ratio
              then lift (int_truediv 1 ratio)
              else ret ratio) ;;
    raise (ValueError (CannotWriteMatrix m_nrow m_ncol n_tot m_size ratio))
  else ret tt.

(** Lines 124-134, for one of the two name lists. *)
Definition write_names (names : NamedMatrix -> list string)
           (count : NamedMatrix -> Z) (kind : Z) (m : message) : M unit :=
  l <- mat_get names ;;
  if (0 <? List.length l)%nat then
    l <- mat_get names ;;
    n <- mat_get count ;;
    (if negb (Z.of_nat (List.length l) =? n)
     then raise (ValueError m) else ret tt) ;;
    l <- mat_get names ;;
    write_name_list kind l
  else ret tt.

(** [write_named_matrix(fid, kind, mat)] *)
Definition write_named_matrix (kind : Z) : M unit :=
  check_size ;;
  start_block (FIFFB_MNE_NAMED_MATRIX FIFF) ;;
  m_nrow <- mat_get nrow ;;
  write_int (FIFF_MNE_NROW FIFF) m_nrow ;;
  m_ncol <- mat_get ncol ;;
  write_int (FIFF_MNE_NCOL FIFF) m_ncol ;;
  write_names row_names nrow (FIFF_MNE_ROW_NAMES FIFF) RowNamesLength ;;
  write_names col_names ncol (FIFF_MNE_COL_NAMES FIFF) ColNamesLength ;;
  m_data <- mat_get data ;;
  write_float_matrix kind m_data ;;
  end_block (FIFFB_MNE_NAMED_MATRIX FIFF).

End Writer.

(** ** The tag finders and the tree builder *)

(** Modelled from the spec: [has_tag] and [find_tag] of [tag.py], which
    are not part of the sources at hand: the presence check and the fetch
    of one tag by kind over a node's own direct tags, the first of that
    kind when there are several. *)
Definition has_tag_dir (nd : node) (kind : Z) : bool :=
  existsb (fun t => tag_kind t =? kind) (directory nd).

Definition find_tag_dir (fid : stream) (nd : node) (kind : Z) : option Tag :=
  find (fun t => tag_kind t =? kind) (directory nd).

(** Modelled from the spec: the tree builder, which is not part of the
    sources at hand.  A block is a container of tags and nested blocks
    delimited by start and end markers; its node has the start marker's
    kind, the tags between the markers as its direct tags and the nested
    blocks as its children, in stream order.  The stream as a whole is
    the node of block kind [0].  [top] is the block being filled,
    [stack] the blocks around it. *)
Record frame : Type := mk_frame {
  f_block : Z;
  f_tags : list Tag;
  f_children : list node
}.

Definition close (f : frame) : node :=
  mk_node (f_block f) (List.length (f_children f)) (f_children f) (f_tags f).

Fixpoint build (items : stream) (top : frame) (stack : list frame)
  : option node :=
  match items with
  | [] => match stack with
          | [] => Some (close top)
          | _ :: _ => None
          end
  | BlockStart k :: rest =>
      build rest {| f_block := k; f_tags := []; f_children := [] |}
            (top :: stack)
  | TagItem t :: rest =>
      build rest {| f_block := f_block top; f_tags := f_tags top ++ [t];
                    f_children := f_children top |} stack
  | BlockEnd k :: rest =>
      match stack with
      | [] => None
      | parent :: stack' =>
          if k =? f_block top then
            build rest {| f_block := f_block parent;
                          f_tags := f_tags parent;
                          f_children := f_children parent ++ [close top] |}
                  stack'
          else None
      end
  end.

Definition make_dir_tree (items : stream) : option node :=
  build items {| f_block := 0; f_tags := []; f_children := [] |} [].

(** A set of constants to run the codec on concrete inputs. *)
Definition FIFF0 : constants :=
  {| FIFFB_MNE_NAMED_MATRIX := 357;
     FIFF_MNE_ROW_NAMES := 3502;
     FIFF_MNE_COL_NAMES := 3503;
     FIFF_MNE_NROW := 3504;
     FIFF_MNE_NCOL := 3505 |}.

(** The metadata tag kinds are pairwise distinct, and [kind] is none of
    them. *)
Definition kinds_distinct (FIFF : constants) (kind : Z) : Prop :=
  NoDup [FIFF_MNE_NROW FIFF; FIFF_MNE_NCOL FIFF; FIFF_MNE_ROW_NAMES FIFF;
         FIFF_MNE_COL_NAMES FIFF; kind].

(** No name contains the delimiter. *)
Definition colon_free (names : list string) : Prop :=
  forall s, In s names -> contains colon s = false.

(** A 3 x 4 array and records over it, used as concrete inputs. *)
Definition arr34 : ndarray :=
  {| buf := [1; 2; 3; 4; 5; 6; 7; 8; 9; 10; 11; 12];
     shape := (3%nat, 4%nat); strides := (4%nat, 1%nat) |}.

Definition mat34 : NamedMatrix :=
  {| nrow := 3; ncol := 4; row_names := ["A"; "B"; "C"];
     col_names := []; data := arr34 |}.


(** ** What a call of the writer appends *)

Definition extend (w : world) (items : stream) : world :=
  {| w_mat := w_mat w; w_fid := w_fid w ++ items |}.

(** The tag of a name list: none for an empty list. *)
Definition names_items (kind : Z) (names : list string) : stream :=
  if (0 <? List.length names)%nat
  then [TagItem {| tag_kind := kind;
                   tag_data := DStr (join (String colon "") names) |}]
  else [].

(** The opening of a block: the start marker and the two count tags. *)
Definition block_head (FIFF : constants) (mat : NamedMatrix) : stream :=
  [BlockStart (FIFFB_MNE_NAMED_MATRIX FIFF);
   TagItem {| tag_kind := FIFF_MNE_NROW FIFF; tag_data := DInt (nrow mat) |};
   TagItem {| tag_kind := FIFF_MNE_NCOL FIFF; tag_data := DInt (ncol mat) |}].

(** The whole block of a matrix. *)
Definition block_items (FIFF : constants) (kind : Z) (mat : NamedMatrix)
  : stream :=
  block_head FIFF mat
  ++ names_items (FIFF_MNE_ROW_NAMES FIFF) (row_names mat)
  ++ names_items (FIFF_MNE_COL_NAMES FIFF) (col_names mat)
  ++ [TagItem {| tag_kind := kind; tag_data := DMat (stored (data mat)) |};
      BlockEnd (FIFFB_MNE_NAMED_MATRIX FIFF)].

(** A non-empty name list of the wrong length. *)
Definition names_bad (names : list string) (count : Z) : bool :=
  (0 <? List.length names)%nat && negb (Z.of_nat (List.length names) =? count).

(** The element count the dimensions announce is the array's. *)
Definition size_ok (mat : NamedMatrix) : bool :=
  Z.of_nat (size (data mat)) =? nrow mat * ncol mat.

(** The two matrices differ in no field but for the layout of [data],
    which holds the same elements in the same shape. *)
Definition same_matrix (m1 m2 : NamedMatrix) : Prop :=
  nrow m1 = nrow m2 /\ ncol m1 = ncol m2 /\
  row_names m1 = row_names m2 /\ col_names m1 = col_names m2 /\
  array_equal (data m1) (data m2).

(** A count tag that is absent or holds [n]. *)
Definition count_agrees (o : option Tag) (n : nat) : Prop :=
  match o with
  | None => True
  | Some t => tag_data t = DInt (Z.of_nat n)
  end.

(** The name list a names tag decodes to: empty when absent. *)
Definition decodes_to (o : option Tag) (names : list string) : Prop :=
  match o with
  | None => names = []
  | Some t => exists s, tag_data t = DStr s /\ names = split colon s
  end.

(** A name list fits a dimension when it is empty or has that length. *)
Definition names_fit (names : list string) (count : Z) : Prop :=
  names = [] \/ Z.of_nat (List.length names) = count.

(** Worlds with an empty stream around variations of [mat34]: two row
    names for three rows, no names at all, and dimensions that announce
    nine elements for the twelve of the array. *)
Definition w_two_names : world :=
  {| w_mat := {| nrow := 3; ncol := 4; row_names := ["A"; "B"];
                 col_names := []; data := arr34 |};
     w_fid := [] |}.

Definition w_no_names : world :=
  {| w_mat := {| nrow := 3; ncol := 4; row_names := [];
                 col_names := []; data := arr34 |};
     w_fid := [] |}.

Definition w_nine : world :=
  {| w_mat := {| nrow := 3; ncol := 3; row_names := [];
                 col_names := []; data := arr34 |};
     w_fid := [] |}.

(** The factor the element-count error reports, as the specification
    words it: [n_tot / data.size], inverted whenever [n_tot < data.size]
    and the ratio is positive. *)
Definition reported_ratio (n_tot : Z) (size : nat) : Q :=
  let ratio := (inject_Z n_tot / float size)%Q in
  if (n_tot <? Z.of_nat size) && Qpositive ratio then (1 / ratio)%Q
  else ratio.

(** A record that announces one element over an array that has none. *)
Definition mat_no_data : NamedMatrix :=
  {| nrow := 1; ncol := 1; row_names := []; col_names := [];
     data := {| buf := []; shape := (0%nat, 0%nat);
                strides := (0%nat, 1%nat) |} |}.

(** A record that announces 3 x 4 elements over an array of ten. *)
Definition w_ten : world :=
  {| w_mat := {| nrow := 3; ncol := 4; row_names := []; col_names := [];
                 data := {| buf := [1; 2; 3; 4; 5; 6; 7; 8; 9; 10];
                            shape := (2%nat, 5%nat);
                            strides := (5%nat, 1%nat) |} |};
     w_fid := [] |}.

(** The record the reader assembles from a payload and two name lists. *)
Definition assembled (a : ndarray) (rows cols : list string)
           (transpose : bool) : NamedMatrix :=
  let mat := {| nrow := Z.of_nat (fst (shape a));
                ncol := Z.of_nat (snd (shape a));
                row_names := rows; col_names := cols; data := a |} in
  if transpose then _transpose_named_matrix mat else mat.

(** Trees to run the node resolution on.  [tree0]: below a root of block
    kind 100, a block of another kind, then two named-matrix blocks that
    both carry a tag of kind 1000.  [tree_deep] holds [tree0] as its only
    child, so that the named-matrix blocks are two levels down. *)
Definition tag1000 : Tag :=
  {| tag_kind := 1000; tag_data := DMat arr34 |}.

Definition child_other : node := mk_node 105 0 [] [tag1000].
Definition child_first : node :=
  mk_node 357 0 [] [{| tag_kind := 3504; tag_data := DInt 3 |}; tag1000].
Definition child_second : node := mk_node 357 0 [] [tag1000].
Definition tree0 : node :=
  mk_node 100 3 [child_other; child_first; child_second] [].
Definition tree_deep : node := mk_node 100 1 [tree0] [].

(** A node whose payload is 3 x 4, with a row-count tag that says 5. *)
Definition node_five_rows : node :=
  mk_node 357 0 []
    [{| tag_kind := 3504; tag_data := DInt 5 |};
     {| tag_kind := 1000; tag_data := DMat arr34 |}].

(** A node whose payload is 3 x 4, with two row names. *)
Definition node_two_names : node :=
  mk_node 357 0 []
    [{| tag_kind := 3502; tag_data := DStr "A:B" |};
     {| tag_kind := 1000; tag_data := DMat arr34 |}].

(** The tags of the block of a matrix, in the order they are written. *)
Definition names_tags (kind : Z) (names : list string) : list Tag :=
  if (0 <? List.length names)%nat
  then [{| tag_kind := kind;
           tag_data := DStr (join (String colon "") names) |}]
  else [].

Definition block_tags (FIFF : constants) (kind : Z) (mat : NamedMatrix)
  : list Tag :=
  [{| tag_kind := FIFF_MNE_NROW FIFF; tag_data := DInt (nrow mat) |};
   {| tag_kind := FIFF_MNE_NCOL FIFF; tag_data := DInt (ncol mat) |}]
  ++ names_tags (FIFF_MNE_ROW_NAMES FIFF) (row_names mat)
  ++ names_tags (FIFF_MNE_COL_NAMES FIFF) (col_names mat)
  ++ [{| tag_kind := kind; tag_data := DMat (stored (data mat)) |}].

(** The node of the block of a matrix. *)
Definition block_node (FIFF : constants) (kind : Z) (mat : NamedMatrix)
  : node :=
  mk_node (FIFFB_MNE_NAMED_MATRIX FIFF) 0 [] (block_tags FIFF kind mat).

(** A 1 x 1 record whose only row name holds a colon. *)
Definition mat_colon : NamedMatrix :=
  {| nrow := 1; ncol := 1; row_names := ["a:b"]; col_names := [];
     data := {| buf := [7]; shape := (1%nat, 1%nat);
                strides := (1%nat, 1%nat) |} |}.

(** [s.count(c)] for a one-character [c]. *)
Fixpoint count_char (c : ascii) (s : string) : nat :=
  match s with
  | EmptyString => 0%nat
  | String a s' =>
      if Ascii.eqb a c then S (count_char c s') else count_char c s'
  end.

(** The dimensions of the record are the shape of its array. *)
Definition well_shaped (mat : NamedMatrix) : Prop :=
  nrow mat = Z.of_nat (fst (shape (data mat))) /\
  ncol mat = Z.of_nat (snd (shape (data mat))).

(** The child the loop of the reader stops at. *)
Definition matches (FIFF : constants) (has_tag : node -> Z -> bool)
           (matkind : Z) (c : node) : bool :=
  (block c =? FIFFB_MNE_NAMED_MATRIX FIFF) && has_tag c matkind.

(** A record that can be written under [kind] and read back: the shape
    of [data] is ([nrow], [ncol]), the name lists fit, no name holds a
    colon, and [kind] is none of the metadata kinds. *)
Definition portable (FIFF : constants) (kind : Z) (mat : NamedMatrix)
  : Prop :=
  kinds_distinct FIFF kind /\ well_shaped mat /\
  names_fit (row_names mat) (nrow mat) /\
  names_fit (col_names mat) (ncol mat) /\
  colon_free (row_names mat) /\ colon_free (col_names mat).


(** A node that announces one child and has three. *)
Definition node_one_child : node :=
  mk_node 100 1 [child_other; child_first; child_second] [].

(** A 2 x 3 record with column names. *)
Definition mat23 : NamedMatrix :=
  {| nrow := 2; ncol := 3; row_names := [];
     col_names := ["x"; "y"; "z"];
     data := {| buf := [1; 2; 3; 4; 5; 6]; shape := (2%nat, 3%nat);
                strides := (3%nat, 1%nat) |} |}.

(** A tree whose root carries a 2 x 2 matrix of kind 1000 itself, is no
    named-matrix block, and has two named-matrix children that carry the
    kind: the first the 3 x 4 matrix with its row names, the second a
    2 x 2 matrix. *)
Definition arr22 : ndarray :=
  {| buf := [1; 2; 3; 4]; shape := (2%nat, 2%nat);
     strides := (2%nat, 1%nat) |}.

Definition child_a : node :=
  mk_node 357 0 []
    [{| tag_kind := 3502; tag_data := DStr "A:B:C" |};
     {| tag_kind := 1000; tag_data := DMat arr34 |}].

Definition child_b : node :=
  mk_node 357 0 [] [{| tag_kind := 1000; tag_data := DMat arr22 |}].

Definition tree_pick : node :=
  mk_node 100 3 [child_other; child_a; child_b]
    [{| tag_kind := 1000; tag_data := DMat arr22 |}].

(** * Properties *)

(** ** Transposition *)

Lemma swap_swap {A B : Type} (p : A * B) : swap (swap p) = p.
Proof. destruct p; reflexivity. Qed.

Lemma T_involutive (a : ndarray) : T (T a) = a.
Proof.
  destruct a as [b s t]; unfold T; simpl.
  now rewrite !swap_swap.
Qed.

(** The transposed view reads the element of the mirrored position. *)
Lemma getitem_T (a : ndarray) (i j : nat) :
  getitem (T a) i j = getitem a j i.
Proof.
  unfold getitem, T; simpl.
  f_equal. apply Nat.add_comm.
Qed.

Lemma size_T (a : ndarray) : size (T a) = size a.
Proof. unfold size, T; simpl. apply Nat.mul_comm. Qed.

(** C9: transposing a matrix record swaps [nrow] with [ncol] and
    [row_names] with [col_names] and replaces [data] by its transpose;
    transposing twice gives back a record equal to the original in every
    field, the payload included. *)
Theorem transpose_involution (mat : NamedMatrix) :
  let once := _transpose_named_matrix mat in
  let twice := _transpose_named_matrix once in
  (nrow once = ncol mat /\ ncol once = nrow mat /\
   row_names once = col_names mat /\ col_names once = row_names mat /\
   data once = T (data mat)) /\
  (nrow twice = nrow mat /\ ncol twice = ncol mat /\
   row_names twice = row_names mat /\ col_names twice = col_names mat /\
   data twice = data mat) /\
  twice = mat.
Proof.
  destruct mat as [r c rn cn d].
  unfold _transpose_named_matrix; cbn [nrow ncol row_names col_names data].
  rewrite T_involutive.
  repeat split; reflexivity.
Qed.

(** ** The writer *)

Section WriterFacts.

Variable FIFF : constants.

(** The element-count check never touches the state. *)
Lemma check_size_state (w : world) : snd (check_size w) = w.
Proof.
  unfold check_size, bind, mat_get, lift, raise, ret.
  destruct (negb _); [|reflexivity].
  destruct (int_truediv _ _) as [r|e]; [|reflexivity].
  destruct (_ && _); [|reflexivity].
  destruct (int_truediv 1 r); reflexivity.
Qed.

Lemma check_size_ok (w : world) :
  size_ok (w_mat w) = true -> check_size w = (Ok tt, w).
Proof.
  unfold size_ok, check_size, bind, mat_get, lift, raise, ret.
  intros ->. reflexivity.
Qed.

Lemma check_size_fails (w : world) :
  size_ok (w_mat w) = false -> exists e, check_size w = (Raise e, w).
Proof.
  unfold size_ok, check_size, bind, mat_get, lift, raise, ret.
  intros ->. cbn [negb].
  destruct (int_truediv _ _) as [r|e]; [|now eexists].
  destruct (_ && _); [|now eexists].
  destruct (int_truediv 1 r); now eexists.
Qed.

(** The division raises for an operand too large or a zero divisor, and
    for nothing else. *)
Lemma int_truediv_error (a : Z) (b : Q) (e : exn) :
  int_truediv a b = Raise e -> e = OverflowError \/ e = ZeroDivisionError.
Proof.
  unfold int_truediv, to_float, truediv.
  destruct (Z.abs a <? float_limit).
  - destruct (Qeq_bool b 0); [|discriminate].
    intros [= <-]. now right.
  - intros [= <-]. now left.
Qed.

(** The errors of the element-count check are not those of the name
    lists. *)
Lemma check_size_error (w : world) (e : exn) :
  fst (check_size w) = Raise e ->
  e <> ValueError RowNamesLength /\ e <> ValueError ColNamesLength.
Proof.
  unfold check_size, bind, mat_get, lift, raise, ret.
  destruct (negb _); [|discriminate].
  destruct (int_truediv _ _) as [r|e1] eqn:E1; cbn [fst].
  - destruct (_ && _); cbn [fst].
    + destruct (int_truediv 1 r) as [r'|e2] eqn:E2; cbn [fst].
      * intros [= <-]; split; discriminate.
      * intros [= <-].
        destruct (int_truediv_error _ _ _ E2) as [-> | ->];
          split; discriminate.
    + intros [= <-]; split; discriminate.
  - intros [= <-].
    destruct (int_truediv_error _ _ _ E1) as [-> | ->]; split; discriminate.
Qed.

Lemma write_names_spec names count kind m (w : world) :
  write_names names count kind m w =
  if names_bad (names (w_mat w)) (count (w_mat w))
  then (Raise (ValueError m), w)
  else (Ok tt, extend w (names_items kind (names (w_mat w)))).
Proof.
  unfold write_names, names_bad, names_items, bind, mat_get, raise, ret,
    write_name_list, emit, extend.
  destruct (0 <? _)%nat; cbn.
  - destruct (Z.of_nat _ =? _); reflexivity.
  - rewrite app_nil_r. now destruct w.
Qed.

(** The writer, case by case. *)
Lemma write_named_matrix_cases (kind : Z) (w : world) :
  let mat := w_mat w in
  write_named_matrix FIFF kind w =
  if size_ok mat then
    if names_bad (row_names mat) (nrow mat) then
      (Raise (ValueError RowNamesLength), extend w (block_head FIFF mat))
    else if names_bad (col_names mat) (ncol mat) then
      (Raise (ValueError ColNamesLength),
       extend w (block_head FIFF mat
                 ++ names_items (FIFF_MNE_ROW_NAMES FIFF) (row_names mat)))
    else (Ok tt, extend w (block_items FIFF kind mat))
  else (Raise match fst (check_size w) with
              | Raise e => e
              | Ok _ => IndexError
              end, w).
Proof.
  cbn zeta. unfold write_named_matrix.
  unfold bind at 1.
  destruct (size_ok (w_mat w)) eqn:Hsz.
  - rewrite (check_size_ok w Hsz).
    unfold bind at 1, start_block, emit.
    unfold bind at 1, mat_get at 1. cbn [w_mat w_fid].
    unfold bind at 1, write_int at 1, emit.
    unfold bind at 1, mat_get at 1. cbn [w_mat w_fid].
    unfold bind at 1, write_int at 1, emit.
    unfold bind at 1. rewrite write_names_spec. cbn [w_mat w_fid].
    destruct (names_bad (row_names _) _).
    + unfold extend, block_head. rewrite <- !app_assoc. reflexivity.
    + unfold bind at 1. rewrite write_names_spec. cbn [w_mat w_fid extend].
      destruct (names_bad (col_names _) _).
      * unfold extend, block_head. cbn [w_mat w_fid].
        rewrite <- !app_assoc. reflexivity.
      * unfold bind, mat_get, write_float_matrix, end_block, emit, extend,
          block_items, block_head.
        cbn [w_mat w_fid]. rewrite <- !app_assoc. reflexivity.
  - destruct (check_size_fails w Hsz) as [e He]. rewrite He. reflexivity.
Qed.

End WriterFacts.

Lemma names_bad_false (names : list string) (count : Z) :
  names_bad names count = false <-> names_fit names count.
Proof.
  unfold names_bad, names_fit. destruct names as [|x l]; cbn [List.length].
  - split; [now left | reflexivity].
  - replace (0 <? S (List.length l))%nat with true by reflexivity.
    cbn [andb]. rewrite negb_false_iff, Z.eqb_eq.
    split; [now right | intros [H|H]; [discriminate | exact H]].
Qed.

Lemma names_bad_true (names : list string) (count : Z) :
  names_bad names count = true <->
  names <> [] /\ Z.of_nat (List.length names) <> count.
Proof.
  unfold names_bad. destruct names as [|x l]; cbn [List.length].
  - split; [discriminate | intros [H _]; now elim H].
  - replace (0 <? S (List.length l))%nat with true by reflexivity.
    cbn [andb]. rewrite negb_true_iff, Z.eqb_neq.
    split; [intros H; split; [discriminate | exact H] | now intros [_ H]].
Qed.

(** C10: the writer only reads the record it is given: whether the call
    returns or raises, the record's [nrow], [ncol], [row_names],
    [col_names] and [data] after the call are those before it. *)
Theorem write_leaves_matrix (FIFF : constants) (kind : Z) (w : world) :
  let w' := snd (write_named_matrix FIFF kind w) in
  w_mat w' = w_mat w /\
  nrow (w_mat w') = nrow (w_mat w) /\
  ncol (w_mat w') = ncol (w_mat w) /\
  row_names (w_mat w') = row_names (w_mat w) /\
  col_names (w_mat w') = col_names (w_mat w) /\
  data (w_mat w') = data (w_mat w).
Proof.
  cbn zeta.
  assert (H : w_mat (snd (write_named_matrix FIFF kind w)) = w_mat w).
  { rewrite write_named_matrix_cases.
    destruct (size_ok _); [|reflexivity].
    destruct (names_bad (row_names _) _); [reflexivity|].
    destruct (names_bad (col_names _) _); reflexivity. }
  rewrite H. repeat split; reflexivity.
Qed.

(** C6: past the element-count check, a non-empty [row_names] whose
    length is not [nrow] makes the writer raise the row-names error, and a
    non-empty [col_names] whose length is not [ncol] the column-names
    error (when the row names fit); an empty name list is no error
    whatever the dimension: its tag is not written and the write
    succeeds. *)
Theorem label_length_gate (FIFF : constants) (kind : Z) (w : world) :
  size_ok (w_mat w) = true ->
  let mat := w_mat w in
  let matrix_and_end :=
    [TagItem {| tag_kind := kind; tag_data := DMat (stored (data mat)) |};
     BlockEnd (FIFFB_MNE_NAMED_MATRIX FIFF)] in
  (row_names mat <> [] ->
   Z.of_nat (List.length (row_names mat)) <> nrow mat ->
   fst (write_named_matrix FIFF kind w) = Raise (ValueError RowNamesLength))
  /\
  (names_fit (row_names mat) (nrow mat) ->
   col_names mat <> [] ->
   Z.of_nat (List.length (col_names mat)) <> ncol mat ->
   fst (write_named_matrix FIFF kind w) = Raise (ValueError ColNamesLength))
  /\
  (row_names mat = [] ->
   names_fit (col_names mat) (ncol mat) ->
   write_named_matrix FIFF kind w =
   (Ok tt, extend w (block_head FIFF mat
                     ++ names_items (FIFF_MNE_COL_NAMES FIFF) (col_names mat)
                     ++ matrix_and_end)))
  /\
  (col_names mat = [] ->
   names_fit (row_names mat) (nrow mat) ->
   write_named_matrix FIFF kind w =
   (Ok tt, extend w (block_head FIFF mat
                     ++ names_items (FIFF_MNE_ROW_NAMES FIFF) (row_names mat)
                     ++ matrix_and_end))).
Proof.
  intros Hsz; cbn zeta.
  rewrite write_named_matrix_cases, Hsz.
  repeat split.
  - intros Hne Hlen.
    now rewrite (proj2 (names_bad_true _ _) (conj Hne Hlen)).
  - intros Hfit Hne Hlen.
    rewrite (proj2 (names_bad_false _ _) Hfit).
    now rewrite (proj2 (names_bad_true _ _) (conj Hne Hlen)).
  - intros Hnil Hfit.
    rewrite (proj2 (names_bad_false _ _) Hfit).
    unfold block_items. rewrite Hnil. reflexivity.
  - intros Hnil Hfit.
    rewrite (proj2 (names_bad_false _ _) Hfit).
    unfold block_items. rewrite Hnil.
    replace (names_bad [] (ncol (w_mat w))) with false by reflexivity.
    reflexivity.
Qed.

(** With three rows, two row names are refused and no row names are
    accepted. *)
Lemma label_length_gate_witness :
  fst (write_named_matrix FIFF0 1000
         w_two_names)
  = Raise (ValueError RowNamesLength)
  /\
  fst (write_named_matrix FIFF0 1000
         w_no_names)
  = Ok tt.
Proof.
  split.
  - refine (proj1 (label_length_gate FIFF0 1000 w_two_names eq_refl) _ _).
    + discriminate.
    + cbn. lia.
  - refine (f_equal fst
      (proj1 (proj2 (proj2 (label_length_gate FIFF0 1000 w_no_names eq_refl)))
         _ _)).
    + reflexivity.
    + left; reflexivity.
Defined.

(** C1, as the specification states it, fails: a row-names list of the
    wrong length is refused after the block has been opened. *)
Lemma failed_write_touches_stream :
  ~ (forall (FIFF : constants) (kind : Z) (w : world) (e : exn),
        fst (write_named_matrix FIFF kind w) = Raise e ->
        w_fid (snd (write_named_matrix FIFF kind w)) = w_fid w).
Proof.
  intros H.
  specialize (H FIFF0 1000
    w_two_names (ValueError RowNamesLength) eq_refl).
  discriminate H.
Qed.

(** C1, amended: a failed call leaves the record as it was; a failure of
    the element-count check leaves the stream untouched; a row-names
    failure leaves the start marker and the two count tags appended; a
    column-names failure leaves, after those, the row-names tag when there
    are row names.  No failure leaves an end marker. *)
Theorem failed_write_stream (FIFF : constants) (kind : Z) (w : world)
        (e : exn) :
  fst (write_named_matrix FIFF kind w) = Raise e ->
  let w' := snd (write_named_matrix FIFF kind w) in
  let mat := w_mat w in
  w_mat w' = mat /\
  (e <> ValueError RowNamesLength -> e <> ValueError ColNamesLength ->
   size_ok mat = false /\ w_fid w' = w_fid w) /\
  (e = ValueError RowNamesLength ->
   size_ok mat = true /\ w_fid w' = w_fid w ++ block_head FIFF mat) /\
  (e = ValueError ColNamesLength ->
   size_ok mat = true /\
   w_fid w' = w_fid w ++ block_head FIFF mat
              ++ names_items (FIFF_MNE_ROW_NAMES FIFF) (row_names mat)).
Proof.
  cbn zeta. rewrite write_named_matrix_cases.
  destruct (size_ok (w_mat w)) eqn:Hsz.
  - destruct (names_bad (row_names _) _).
    + cbn. intros [= <-].
      split; [reflexivity | split; [|split]].
      * intros Hr _; now elim Hr.
      * intros _; split; reflexivity.
      * discriminate.
    + destruct (names_bad (col_names _) _).
      * cbn. intros [= <-].
        split; [reflexivity | split; [|split]].
        -- intros _ Hc; now elim Hc.
        -- discriminate.
        -- intros _; split; reflexivity.
      * cbn. discriminate.
  - destruct (check_size_fails w Hsz) as [e' He].
    assert (Hn := check_size_error w e'). rewrite He in Hn.
    destruct (Hn eq_refl) as [Hr Hc].
    rewrite He; cbn. intros [= <-].
    split; [reflexivity | split; [|split]].
    + intros _ _; split; reflexivity.
    + intros Hx; now elim Hr.
    + intros Hx; now elim Hc.
Qed.

(** An element-count failure writes nothing; a row-names failure has
    written the block's opening. *)
Lemma failed_write_stream_witness :
  w_fid (snd (write_named_matrix FIFF0 1000
                w_nine)) = []
  /\
  w_fid (snd (write_named_matrix FIFF0 1000
                w_two_names))
  = [BlockStart 357;
     TagItem {| tag_kind := 3504; tag_data := DInt 3 |};
     TagItem {| tag_kind := 3505; tag_data := DInt 4 |}].
Proof.
  split.
  - refine (proj2 (proj1 (proj2
      (failed_write_stream FIFF0 1000 w_nine
         (ValueError (CannotWriteMatrix 3 3 9 12 (12 # 9))) eq_refl)) _ _));
      discriminate.
  - exact (proj2 (proj1 (proj2 (proj2
      (failed_write_stream FIFF0 1000 w_two_names (ValueError RowNamesLength)
         eq_refl))) eq_refl)).
Defined.

(** ** The element-count check *)

Lemma float_nonzero (n : nat) : n <> 0%nat -> Qeq_bool (float n) 0 = false.
Proof.
  intros Hn. destruct (Qeq_bool (float n) 0) eqn:E; [|reflexivity].
  apply Qeq_bool_eq in E. unfold Qeq, float in E. cbn in E. lia.
Qed.

Lemma Qpositive_nonzero (r : Q) : Qpositive r = true -> Qeq_bool r 0 = false.
Proof.
  unfold Qpositive. intros Hr. apply Z.ltb_lt in Hr.
  destruct (Qeq_bool r 0) eqn:E; [|reflexivity].
  apply Qeq_bool_eq in E. unfold Qeq in E. cbn in E. lia.
Qed.

Lemma to_float_fits (a : Z) :
  Z.abs a < float_limit -> to_float a = Ok (inject_Z a).
Proof.
  intros Ha. unfold to_float. now rewrite (proj2 (Z.ltb_lt _ _) Ha).
Qed.


(** For an array that has elements, and dimensions whose product a float
    holds, a wrong element count is reported by the [ValueError] that
    carries both counts and the factor, and nothing is written. *)
Lemma shape_mismatch_reported (FIFF : constants) (kind : Z) (w : world) :
  let mat := w_mat w in
  size_ok mat = false ->
  size (data mat) <> 0%nat ->
  Z.abs (nrow mat * ncol mat) < float_limit ->
  write_named_matrix FIFF kind w =
  (Raise (ValueError
            (CannotWriteMatrix (nrow mat) (ncol mat) (nrow mat * ncol mat)
               (size (data mat))
               (reported_ratio (nrow mat * ncol mat) (size (data mat))))),
   w).
Proof.
  cbn zeta. intros Hsz Hn Hfit.
  rewrite write_named_matrix_cases, Hsz.
  f_equal. f_equal.
  unfold size_ok in Hsz.
  unfold check_size, bind, mat_get, lift, raise, ret, reported_ratio.
  rewrite Hsz. cbn [negb].
  unfold int_truediv at 1. rewrite (to_float_fits _ Hfit).
  unfold truediv at 1. rewrite (float_nonzero _ Hn). cbn [fst].
  destruct (_ && _) eqn:Hinv; [|reflexivity].
  apply andb_true_iff in Hinv. destruct Hinv as [_ Hpos].
  unfold int_truediv. rewrite (to_float_fits 1) by reflexivity.
  unfold truediv. now rewrite (Qpositive_nonzero _ Hpos).
Qed.

(** Dimensions whose product no float holds: the division raises
    [OverflowError], whatever the array is, and nothing is written. *)
Lemma shape_mismatch_overflow (FIFF : constants) (kind : Z) (w : world) :
  let mat := w_mat w in
  size_ok mat = false ->
  float_limit <= Z.abs (nrow mat * ncol mat) ->
  write_named_matrix FIFF kind w = (Raise OverflowError, w).
Proof.
  cbn zeta. intros Hsz Hbig.
  rewrite write_named_matrix_cases, Hsz.
  f_equal. f_equal.
  unfold size_ok in Hsz.
  unfold check_size, bind, mat_get, lift, raise, ret.
  rewrite Hsz. cbn [negb].
  unfold int_truediv at 1, to_float.
  now rewrite (proj2 (Z.ltb_ge _ _) Hbig).
Qed.

(** Three rows and four columns over ten elements: the factor is 1.2,
    and the stream stays empty. *)
Lemma shape_mismatch_3_4_10 :
  exists ratio,
    write_named_matrix FIFF0 1000 w_ten =
    (Raise (ValueError (CannotWriteMatrix 3 4 12 10 ratio)), w_ten)
    /\ (ratio == 12 # 10)%Q.
Proof.
  eexists. split.
  - apply (shape_mismatch_reported FIFF0 1000 w_ten);
      [reflexivity | cbn; discriminate | reflexivity].
  - reflexivity.
Qed.

(** C3, at a record whose array is empty: the division
    [n_tot / float(mat["data"].size)] raises [ZeroDivisionError] before the
    [ValueError] of the element count is built; nothing is written. *)
Theorem shape_mismatch_on_empty_data (FIFF : constants) (kind : Z)
        (fid : stream) :
  size_ok mat_no_data = false /\
  write_named_matrix FIFF kind {| w_mat := mat_no_data; w_fid := fid |} =
  (Raise ZeroDivisionError, {| w_mat := mat_no_data; w_fid := fid |}).
Proof.
  split; [reflexivity|].
  rewrite write_named_matrix_cases. reflexivity.
Qed.

(** ** The reader *)

Section ReaderFacts.

Variable FIFF : constants.
Variable has_tag : node -> Z -> bool.
Variable find_tag : stream -> node -> Z -> option Tag.

Notation locate := (locate FIFF has_tag).
Notation descend := (descend FIFF has_tag).
Notation resolve_spec := (resolve_spec FIFF has_tag).
Notation read_located := (read_located FIFF find_tag).
Notation _read_named_matrix := (_read_named_matrix FIFF has_tag find_tag).

Lemma skipn_cons {A : Type} (l : list A) (s : nat) :
  (s < List.length l)%nat ->
  exists c, nth_error l s = Some c /\ skipn s l = c :: skipn (S s) l.
Proof.
  revert s. induction l as [|x l IH]; intros s Hs; cbn in Hs.
  - lia.
  - destruct s as [|s].
    + exists x. split; reflexivity.
    + destruct (IH s) as [c [Hc Hk]]; [lia|].
      exists c. split; [exact Hc | exact Hk].
Qed.

(** The loop over the indices from [s] on finds what [find] finds in the
    children from [s] on. *)
Lemma descend_find (nd : node) (matkind : Z) (n s : nat) :
  (s + n)%nat = List.length (children nd) ->
  descend nd matkind (seq s n) =
  Ok (find (fun c => (block c =? FIFFB_MNE_NAMED_MATRIX FIFF)
                     && has_tag c matkind)
           (skipn s (children nd))).
Proof.
  revert s. induction n as [|n IH]; intros s Hs.
  - cbn. rewrite skipn_all2 by lia. reflexivity.
  - destruct (skipn_cons (children nd) s) as [c [Hc Hk]]; [lia|].
    cbn [seq descend]. rewrite Hc, Hk. cbn [find].
    destruct (block c =? _); cbn [andb].
    + destruct (has_tag c matkind); [reflexivity|].
      apply IH. lia.
    + apply IH. lia.
Qed.

Lemma locate_spec (nd : node) (matkind : Z) :
  nchild nd = List.length (children nd) ->
  locate nd matkind = Ok (resolve_spec nd matkind).
Proof.
  intros Hn. unfold locate, resolve_spec.
  destruct (block nd =? _); cbn [negb].
  - destruct (has_tag nd matkind); reflexivity.
  - rewrite descend_find by (rewrite Hn; reflexivity).
    reflexivity.
Qed.

Lemma find_first {A : Type} (p : A -> bool) (pre post : list A) (c : A) :
  (forall x, In x pre -> p x = false) -> p c = true ->
  find p (pre ++ c :: post) = Some c.
Proof.
  intros Hpre Hc. induction pre as [|x pre IH]; cbn.
  - now rewrite Hc.
  - rewrite (Hpre x (or_introl eq_refl)).
    apply IH. intros y Hy. apply Hpre. now right.
Qed.

(** C4: for a node whose child count is the number of its children, the
    node the reader works on is the node itself when it is a named-matrix
    block (provided it carries the tag), otherwise the first of its direct
    children, in order, that is a named-matrix block and carries the tag,
    whatever comes after that child; when there is no such node the reader
    returns [None] and raises nothing; when there is one, the reader reads
    from that node and from no other: its outcome is that of lines 63-94
    on the resolved node, and is the outcome of the reader on the resolved
    node itself. *)
Theorem locate_resolves (fid : stream) (nd : node) (matkind : Z)
        (transpose : bool) :
  nchild nd = List.length (children nd) ->
  locate nd matkind = Ok (resolve_spec nd matkind)
  /\
  (block nd = FIFFB_MNE_NAMED_MATRIX FIFF ->
   resolve_spec nd matkind = if has_tag nd matkind then Some nd else None)
  /\
  (block nd <> FIFFB_MNE_NAMED_MATRIX FIFF ->
   forall pre c post,
     children nd = pre ++ c :: post ->
     (forall x, In x pre ->
        (block x =? FIFFB_MNE_NAMED_MATRIX FIFF) && has_tag x matkind
        = false) ->
     (block c =? FIFFB_MNE_NAMED_MATRIX FIFF) && has_tag c matkind = true ->
     resolve_spec nd matkind = Some c)
  /\
  (block nd <> FIFFB_MNE_NAMED_MATRIX FIFF ->
   (forall x, In x (children nd) ->
      (block x =? FIFFB_MNE_NAMED_MATRIX FIFF) && has_tag x matkind
      = false) ->
   resolve_spec nd matkind = None)
  /\
  (resolve_spec nd matkind = None ->
   _read_named_matrix fid nd matkind transpose = Ok None)
  /\
  _read_named_matrix fid nd matkind transpose =
  match resolve_spec nd matkind with
  | Some used =>
      rbind (read_located fid used matkind transpose)
            (fun mat => Ok (Some mat))
  | None => Ok None
  end
  /\
  (forall used,
     resolve_spec nd matkind = Some used ->
     _read_named_matrix fid nd matkind transpose =
     _read_named_matrix fid used matkind transpose).
Proof.
  intros Hn. split; [now apply locate_spec|].
  split; [|split; [|split; [|split; [|split]]]].
  - intros Hb. unfold resolve_spec.
    now rewrite (proj2 (Z.eqb_eq _ _) Hb).
  - intros Hb pre c post Hch Hpre Hc. unfold resolve_spec.
    rewrite (proj2 (Z.eqb_neq _ _) Hb), Hch.
    now apply find_first.
  - intros Hb Hall. unfold resolve_spec.
    rewrite (proj2 (Z.eqb_neq _ _) Hb).
    destruct (find _ (children nd)) as [c|] eqn:Hf; [|reflexivity].
    apply find_some in Hf. destruct Hf as [Hin Hc].
    rewrite (Hall c Hin) in Hc. discriminate.
  - intros Hnone. unfold _read_named_matrix.
    rewrite (locate_spec nd matkind Hn), Hnone. reflexivity.
  - unfold _read_named_matrix.
    rewrite (locate_spec nd matkind Hn).
    destruct (resolve_spec nd matkind); reflexivity.
  - intros used Hused.
    assert (Hself : locate used matkind = Ok (Some used)).
    { unfold resolve_spec in Hused. unfold locate.
      destruct (block nd =? FIFFB_MNE_NAMED_MATRIX FIFF) eqn:Hb.
      - destruct (has_tag nd matkind) eqn:Ht; [|discriminate].
        injection Hused as <-. now rewrite Hb, Ht.
      - apply find_some in Hused. destruct Hused as [_ Hm].
        apply andb_true_iff in Hm. destruct Hm as [H1 H2].
        now rewrite H1, H2. }
    unfold _read_named_matrix.
    rewrite (locate_spec nd matkind Hn), Hused, Hself. reflexivity.
Qed.

(** What the reader returns once a node is located. *)
Lemma read_after_locate (fid : stream) (nd0 nd : node) (matkind : Z)
      (transpose : bool) :
  locate nd0 matkind = Ok (Some nd) ->
  _read_named_matrix fid nd0 matkind transpose =
  rbind (read_located fid nd matkind transpose) (fun mat => Ok (Some mat)).
Proof.
  intros Hloc. unfold _read_named_matrix. rewrite Hloc. reflexivity.
Qed.

(** C8: once a node has been located (the has-tag check passed), a
    [find_tag] that returns [None] for the matrix makes the reader raise
    the missing-data error, and whatever the located node holds the reader
    does not return [None]: [None] comes from the locate step only. *)
Theorem missing_data_is_fatal (fid : stream) (nd0 nd : node) (matkind : Z)
        (transpose : bool) :
  locate nd0 matkind = Ok (Some nd) ->
  (find_tag fid nd matkind = None ->
   _read_named_matrix fid nd0 matkind transpose
   = Raise (ValueError MatrixDataMissing))
  /\
  _read_named_matrix fid nd0 matkind transpose <> Ok None.
Proof.
  intros Hloc. rewrite (read_after_locate fid nd0 nd matkind transpose Hloc).
  split.
  - intros Hnone. unfold read_located. rewrite Hnone. reflexivity.
  - destruct (read_located fid nd matkind transpose); cbn; discriminate.
Qed.

(** The reader returns [None] exactly when the locate step yields no
    node. *)
Lemma read_none_iff (fid : stream) (nd0 : node) (matkind : Z)
      (transpose : bool) :
  _read_named_matrix fid nd0 matkind transpose = Ok None <->
  locate nd0 matkind = Ok None.
Proof.
  unfold _read_named_matrix.
  destruct (locate nd0 matkind) as [[nd|]|e]; cbn.
  - destruct (read_located fid nd matkind transpose); cbn;
      split; discriminate.
  - split; reflexivity.
  - split; discriminate.
Qed.

Lemma ne_int_same (n : nat) : ne_int (DInt (Z.of_nat n)) n = Ok false.
Proof. unfold ne_int. now rewrite Z.eqb_refl. Qed.

Lemma ne_int_other (v : Z) (n : nat) :
  v <> Z.of_nat n -> ne_int (DInt v) n = Ok true.
Proof.
  intros Hv. unfold ne_int. now rewrite (proj2 (Z.eqb_neq _ _) Hv).
Qed.

(** The reader on a located node whose count tags agree with the payload
    and whose names tags hold strings: no check of the name lists'
    lengths stands in the way. *)
Lemma read_located_ok (fid : stream) (nd : node) (matkind : Z)
      (transpose : bool) (tag : Tag) (a : ndarray)
      (rows cols : list string) :
  find_tag fid nd matkind = Some tag ->
  tag_data tag = DMat a ->
  count_agrees (find_tag fid nd (FIFF_MNE_NROW FIFF)) (fst (shape a)) ->
  count_agrees (find_tag fid nd (FIFF_MNE_NCOL FIFF)) (snd (shape a)) ->
  decodes_to (find_tag fid nd (FIFF_MNE_ROW_NAMES FIFF)) rows ->
  decodes_to (find_tag fid nd (FIFF_MNE_COL_NAMES FIFF)) cols ->
  read_located fid nd matkind transpose = Ok (assembled a rows cols transpose).
Proof.
  intros Htag Hdata Hr Hc Hrn Hcn.
  unfold read_located, assembled.
  rewrite Htag, Hdata. cbn [as_array rbind].
  destruct (shape a) as [r c]. cbn [fst snd] in *.
  unfold count_agrees in Hr, Hc. unfold decodes_to in Hrn, Hcn.
  assert (Er : match find_tag fid nd (FIFF_MNE_NROW FIFF) with
               | Some t => rbind (ne_int (tag_data t) r)
                             (fun differs => if differs
                                then Raise (ValueError RowsDoNotMatch)
                                else Ok tt)
               | None => Ok tt
               end = Ok tt).
  { destruct (find_tag fid nd (FIFF_MNE_NROW FIFF)); [|reflexivity].
    now rewrite Hr, ne_int_same. }
  assert (Ec : match find_tag fid nd (FIFF_MNE_NCOL FIFF) with
               | Some t => rbind (ne_int (tag_data t) c)
                             (fun differs => if differs
                                then Raise (ValueError ColsDoNotMatch)
                                else Ok tt)
               | None => Ok tt
               end = Ok tt).
  { destruct (find_tag fid nd (FIFF_MNE_NCOL FIFF)); [|reflexivity].
    now rewrite Hc, ne_int_same. }
  rewrite Er. cbn [rbind]. rewrite Ec. cbn [rbind].
  assert (En : forall kind names,
             match find_tag fid nd kind with
             | Some t => exists s, tag_data t = DStr s /\ names = split colon s
             | None => names = []
             end ->
             match find_tag fid nd kind with
             | Some t => split_colon (tag_data t)
             | None => Ok []
             end = Ok names).
  { intros kind names H. destruct (find_tag fid nd kind).
    - destruct H as [s [Hs ->]]. now rewrite Hs.
    - now subst. }
  rewrite (En _ _ Hrn). cbn [rbind]. rewrite (En _ _ Hcn). reflexivity.
Qed.

End ReaderFacts.

Section ReaderChecks.

Variable FIFF : constants.
Variable has_tag : node -> Z -> bool.
Variable find_tag : stream -> node -> Z -> option Tag.

Notation locate := (locate FIFF has_tag).
Notation read_located := (read_located FIFF find_tag).
Notation _read_named_matrix := (_read_named_matrix FIFF has_tag find_tag).

(** Every way the rest of the reader can go: the goal is closed when the
    outcomes differ in their constructors. *)
Ltac outcome_cases :=
  repeat (cbn [rbind as_array ne_int split_colon];
          match goal with
          | |- context [match ?o with Some _ => _ | None => _ end] =>
              destruct o
          | |- context [tag_data ?t] => destruct (tag_data t)
          | |- context [if ?b then _ else _] => destruct b
          end);
  cbn [rbind as_array ne_int split_colon]; try discriminate.

(** C5: on the located node, with the matrix payload read, a row-count
    tag whose integer differs from the payload's number of rows makes the
    reader raise the rows error; a column-count tag whose integer differs
    from the payload's number of columns makes it raise the columns error
    (when the row count passed); for an absent count tag the error of
    that dimension is not raised. *)
Theorem dimension_cross_check (fid : stream) (nd0 nd : node) (matkind : Z)
        (transpose : bool) (tag : Tag) (a : ndarray) :
  locate nd0 matkind = Ok (Some nd) ->
  find_tag fid nd matkind = Some tag ->
  tag_data tag = DMat a ->
  let outcome := _read_named_matrix fid nd0 matkind transpose in
  (forall t v,
     find_tag fid nd (FIFF_MNE_NROW FIFF) = Some t ->
     tag_data t = DInt v ->
     v <> Z.of_nat (fst (shape a)) ->
     outcome = Raise (ValueError RowsDoNotMatch))
  /\
  (forall t v,
     count_agrees (find_tag fid nd (FIFF_MNE_NROW FIFF)) (fst (shape a)) ->
     find_tag fid nd (FIFF_MNE_NCOL FIFF) = Some t ->
     tag_data t = DInt v ->
     v <> Z.of_nat (snd (shape a)) ->
     outcome = Raise (ValueError ColsDoNotMatch))
  /\
  (find_tag fid nd (FIFF_MNE_NROW FIFF) = None ->
   outcome <> Raise (ValueError RowsDoNotMatch))
  /\
  (find_tag fid nd (FIFF_MNE_NCOL FIFF) = None ->
   outcome <> Raise (ValueError ColsDoNotMatch)).
Proof.
  intros Hloc Htag Hdata. cbn zeta.
  rewrite (read_after_locate FIFF has_tag find_tag fid nd0 nd matkind
             transpose Hloc).
  unfold read_located. rewrite Htag, Hdata. cbn [as_array rbind].
  destruct (shape a) as [r c]. cbn [fst snd].
  split; [|split; [|split]].
  - intros t v Ht Hd Hv. rewrite Ht, Hd, (ne_int_other v r Hv). reflexivity.
  - intros t v Hr Ht Hd Hv. unfold count_agrees in Hr.
    destruct (find_tag fid nd (FIFF_MNE_NROW FIFF)) as [t0|].
    + rewrite Hr, ne_int_same. cbn [rbind].
      rewrite Ht, Hd, (ne_int_other v c Hv). reflexivity.
    + cbn [rbind]. rewrite Ht, Hd, (ne_int_other v c Hv). reflexivity.
  - intros Hnone. rewrite Hnone. cbn [rbind]. outcome_cases.
  - intros Hnone. rewrite Hnone. outcome_cases.
Qed.

(** C7: on the located node, with count tags that agree with the payload
    (or are absent), the name lists the names tags decode to are returned
    unchanged in the record, whatever their lengths are against the
    payload's dimensions: the reader raises nothing. *)
Theorem labels_not_checked (fid : stream) (nd0 nd : node) (matkind : Z)
        (transpose : bool) (tag : Tag) (a : ndarray)
        (rows cols : list string) :
  locate nd0 matkind = Ok (Some nd) ->
  find_tag fid nd matkind = Some tag ->
  tag_data tag = DMat a ->
  count_agrees (find_tag fid nd (FIFF_MNE_NROW FIFF)) (fst (shape a)) ->
  count_agrees (find_tag fid nd (FIFF_MNE_NCOL FIFF)) (snd (shape a)) ->
  decodes_to (find_tag fid nd (FIFF_MNE_ROW_NAMES FIFF)) rows ->
  decodes_to (find_tag fid nd (FIFF_MNE_COL_NAMES FIFF)) cols ->
  let mat := assembled a rows cols transpose in
  _read_named_matrix fid nd0 matkind transpose = Ok (Some mat)
  /\ (if transpose then col_names mat else row_names mat) = rows
  /\ (if transpose then row_names mat else col_names mat) = cols.
Proof.
  intros Hloc Htag Hdata Hr Hc Hrn Hcn. cbn zeta.
  rewrite (read_after_locate FIFF has_tag find_tag fid nd0 nd matkind
             transpose Hloc).
  rewrite (read_located_ok FIFF find_tag fid nd matkind transpose tag a
             rows cols Htag Hdata Hr Hc Hrn Hcn).
  split; [reflexivity|].
  unfold assembled. destruct transpose; split; reflexivity.
Qed.

End ReaderChecks.

(** In [tree0] the first named-matrix child that carries the tag is
    used, not the second; one level further up nothing is found; in
    [tree_pick] the record is that of the first matching child, neither
    that of the node itself nor that of the second. *)
Lemma locate_resolves_witness :
  locate FIFF0 has_tag_dir tree0 1000 = Ok (Some child_first)
  /\ _read_named_matrix FIFF0 has_tag_dir find_tag_dir [] tree_deep 1000 false
     = Ok None
  /\ _read_named_matrix FIFF0 has_tag_dir find_tag_dir [] tree_pick 1000 false
     = Ok (Some mat34).
Proof.
  split; [|split].
  - exact (proj1 (locate_resolves FIFF0 has_tag_dir find_tag_dir [] tree0
                    1000 false eq_refl)).
  - exact (proj1 (proj2 (proj2 (proj2 (proj2
             (locate_resolves FIFF0 has_tag_dir find_tag_dir [] tree_deep
                1000 false eq_refl))))) eq_refl).
  - exact (proj1 (proj2 (proj2 (proj2 (proj2 (proj2
             (locate_resolves FIFF0 has_tag_dir find_tag_dir [] tree_pick
                1000 false eq_refl))))))).
Defined.

(** A [find_tag] that finds nothing in a node [has_tag] vouched for. *)
Lemma missing_data_is_fatal_witness :
  _read_named_matrix FIFF0 (fun _ _ => true) (fun _ _ _ => None) []
    child_first 1000 false
  = Raise (ValueError MatrixDataMissing).
Proof.
  exact (proj1 (missing_data_is_fatal FIFF0 (fun _ _ => true)
                  (fun _ _ _ => None) [] child_first child_first 1000 false
                  eq_refl) eq_refl).
Defined.

(** A 3 x 4 payload under a row-count tag that says 5. *)
Lemma dimension_cross_check_witness :
  _read_named_matrix FIFF0 has_tag_dir find_tag_dir [] node_five_rows 1000
    false
  = Raise (ValueError RowsDoNotMatch).
Proof.
  refine (proj1 (dimension_cross_check FIFF0 has_tag_dir find_tag_dir []
                   node_five_rows node_five_rows 1000 false
                   {| tag_kind := 1000; tag_data := DMat arr34 |} arr34
                   eq_refl eq_refl eq_refl)
                {| tag_kind := 3504; tag_data := DInt 5 |} 5
                eq_refl eq_refl _).
  cbn. lia.
Defined.

(** Two row names over a 3 x 4 payload are read back as they are. *)
Lemma labels_not_checked_witness :
  _read_named_matrix FIFF0 has_tag_dir find_tag_dir [] node_two_names 1000
    false
  = Ok (Some {| nrow := 3; ncol := 4; row_names := ["A"; "B"];
                col_names := []; data := arr34 |})
  /\ List.length ["A"; "B"] <> 3%nat.
Proof.
  split.
  - refine (proj1 (labels_not_checked FIFF0 has_tag_dir find_tag_dir []
                     node_two_names node_two_names 1000 false
                     {| tag_kind := 1000; tag_data := DMat arr34 |} arr34
                     ["A"; "B"] []
                     eq_refl eq_refl eq_refl I I _ eq_refl)).
    exists "A:B". split; reflexivity.
  - cbn. lia.
Defined.

(** ** Name lists: [split] after [join] *)

Lemma split_colon_free (s : string) :
  contains colon s = false -> split colon s = [s].
Proof.
  induction s as [|a s IH]; cbn; [reflexivity|].
  intros H. apply orb_false_iff in H. destruct H as [Ha Hs].
  rewrite Ha, (IH Hs). reflexivity.
Qed.

Lemma split_app (s rest : string) :
  contains colon s = false ->
  split colon (s ++ String colon rest)%string = s :: split colon rest.
Proof.
  induction s as [|a s IH]; cbn.
  - intros _. reflexivity.
  - intros H. apply orb_false_iff in H. destruct H as [Ha Hs].
    rewrite Ha, (IH Hs). reflexivity.
Qed.

(** A non-empty list of colon-free names is read back from its joined
    string. *)
Lemma split_join (names : list string) :
  names <> [] -> colon_free names ->
  split colon (join (String colon "") names) = names.
Proof.
  induction names as [|x l IH]; intros Hne Hfree; [now elim Hne|].
  destruct l as [|y l].
  - cbn. apply split_colon_free. apply Hfree. now left.
  - change (join (String colon "") (x :: y :: l))
      with (x ++ String colon (join (String colon "") (y :: l)))%string.
    rewrite split_app by (apply Hfree; now left).
    f_equal. apply IH; [discriminate|].
    intros s Hs. apply Hfree. now right.
Qed.

(** A name that holds a colon is not. *)
Lemma split_join_colon : split colon (join (String colon "") ["a:b"]) = ["a"; "b"].
Proof. reflexivity. Qed.

Lemma join_ABC : join (String colon "") ["A"; "B"; "C"] = "A:B:C".
Proof. reflexivity. Qed.

Lemma split_ABC : split colon "A:B:C" = ["A"; "B"; "C"].
Proof. reflexivity. Qed.

(** ** Arrays: what is stored holds the same elements *)

Lemma nth_concat_rows (g : nat -> nat -> scalar) (nc nr : nat) :
  forall s i j, (i < nr)%nat -> (j < nc)%nat ->
  nth (i * nc + j)
      (List.concat (map (fun i => map (fun j => g i j) (seq 0 nc))
                        (seq s nr))) 0
  = g (s + i)%nat j.
Proof.
  induction nr as [|nr IH]; intros s i j Hi Hj; [lia|].
  cbn [seq map List.concat].
  destruct i as [|i].
  - cbn [Nat.mul Nat.add].
    rewrite app_nth1 by (rewrite length_map, length_seq; exact Hj).
    rewrite (nth_indep _ 0 (g s 0%nat))
      by (rewrite length_map, length_seq; exact Hj).
    rewrite (map_nth (fun j => g s j)), seq_nth by exact Hj.
    now rewrite Nat.add_0_r.
  - rewrite app_nth2 by (rewrite length_map, length_seq; lia).
    rewrite length_map, length_seq.
    replace (S i * nc + j - nc)%nat with (i * nc + j)%nat by lia.
    rewrite IH by lia. f_equal. lia.
Qed.

Lemma tolist_stored (a : ndarray) : tolist (stored a) = tolist a.
Proof.
  unfold tolist. cbn [stored shape].
  apply map_ext_in. intros i Hi. apply in_seq in Hi.
  apply map_ext_in. intros j Hj. apply in_seq in Hj.
  unfold getitem at 1. cbn [stored strides buf fst snd].
  rewrite Nat.mul_1_r. unfold ravel, tolist.
  cbn [Nat.add] in Hi, Hj.
  rewrite (nth_concat_rows (getitem a) (snd (shape a)) (fst (shape a)) 0 i j)
    by lia.
  reflexivity.
Qed.

Lemma array_equal_stored (a : ndarray) : array_equal (stored a) a.
Proof. split; [reflexivity | apply tolist_stored]. Qed.

Lemma length_concat_rows (g : nat -> nat -> scalar) (nc nr : nat) :
  forall s,
  List.length (List.concat (map (fun i => map (fun j => g i j) (seq 0 nc))
                                (seq s nr)))
  = (nr * nc)%nat.
Proof.
  induction nr as [|nr IH]; intros s; [reflexivity|].
  cbn [seq map List.concat].
  rewrite length_app, length_map, length_seq, IH. reflexivity.
Qed.

(** A C-contiguous array is stored as it is. *)
Lemma ravel_contiguous (a : ndarray) : c_contiguous a -> ravel a = buf a.
Proof.
  intros [Hst Hlen]. unfold size in Hlen.
  apply (nth_ext _ _ 0 0).
  - unfold ravel, tolist. rewrite length_concat_rows. symmetry. exact Hlen.
  - unfold ravel, tolist. rewrite length_concat_rows. intros k Hk.
    set (nc := snd (shape a)) in *. set (nr := fst (shape a)) in *.
    assert (Hnc : nc <> 0%nat) by (intros E; rewrite E in Hk; lia).
    assert (Hdiv : k = (k / nc * nc + k mod nc)%nat).
    { rewrite Nat.mul_comm. apply Nat.div_mod_eq. }
    assert (Hi : (k / nc < nr)%nat).
    { apply Nat.Div0.div_lt_upper_bound. now rewrite Nat.mul_comm. }
    assert (Hj : (k mod nc < nc)%nat) by now apply Nat.mod_upper_bound.
    pose proof (nth_concat_rows (getitem a) nc nr 0 (k / nc) (k mod nc)
                  Hi Hj) as E.
    rewrite <- Hdiv in E. etransitivity; [exact E|].
    unfold getitem. rewrite Hst. cbn [fst snd Nat.add].
    fold nc. rewrite Nat.mul_1_r, <- Hdiv. reflexivity.
Qed.

Lemma stored_contiguous (a : ndarray) : c_contiguous a -> stored a = a.
Proof.
  intros Hc. unfold stored. rewrite (ravel_contiguous a Hc).
  destruct Hc as [Hst _]. destruct a as [b sh st]. cbn in *.
  now rewrite Hst.
Qed.

(** ** The block of a matrix as a node *)

Lemma block_items_tags (FIFF : constants) (kind : Z) (mat : NamedMatrix) :
  block_items FIFF kind mat =
  BlockStart (FIFFB_MNE_NAMED_MATRIX FIFF)
  :: map TagItem (block_tags FIFF kind mat)
  ++ [BlockEnd (FIFFB_MNE_NAMED_MATRIX FIFF)].
Proof.
  unfold block_items, block_head, block_tags, names_items, names_tags.
  destruct (0 <? _)%nat; destruct (0 <? _)%nat; reflexivity.
Qed.

Lemma build_tags (ts : list Tag) (rest : stream) :
  forall (top : frame) (stack : list frame),
  build (map TagItem ts ++ rest) top stack =
  build rest {| f_block := f_block top; f_tags := f_tags top ++ ts;
                f_children := f_children top |} stack.
Proof.
  induction ts as [|t ts IH]; intros top stack.
  - cbn. rewrite app_nil_r. now destruct top.
  - cbn [map app build]. rewrite IH. cbn [f_block f_tags f_children].
    now rewrite <- app_assoc.
Qed.

(** The tree of the stream of one block: the block's node is the only
    child of the root. *)
Lemma make_dir_tree_block (FIFF : constants) (kind : Z) (mat : NamedMatrix) :
  make_dir_tree (block_items FIFF kind mat) =
  Some (mk_node 0 1 [block_node FIFF kind mat] []).
Proof.
  rewrite block_items_tags. unfold make_dir_tree.
  cbn [build]. rewrite build_tags. cbn [build f_block f_tags f_children].
  rewrite Z.eqb_refl. reflexivity.
Qed.

Lemma kinds_distinct_neq (FIFF : constants) (kind : Z) :
  kinds_distinct FIFF kind ->
  FIFF_MNE_NROW FIFF <> FIFF_MNE_NCOL FIFF /\
  FIFF_MNE_NROW FIFF <> FIFF_MNE_ROW_NAMES FIFF /\
  FIFF_MNE_NROW FIFF <> FIFF_MNE_COL_NAMES FIFF /\
  FIFF_MNE_NROW FIFF <> kind /\
  FIFF_MNE_NCOL FIFF <> FIFF_MNE_ROW_NAMES FIFF /\
  FIFF_MNE_NCOL FIFF <> FIFF_MNE_COL_NAMES FIFF /\
  FIFF_MNE_NCOL FIFF <> kind /\
  FIFF_MNE_ROW_NAMES FIFF <> FIFF_MNE_COL_NAMES FIFF /\
  FIFF_MNE_ROW_NAMES FIFF <> kind /\
  FIFF_MNE_COL_NAMES FIFF <> kind.
Proof.
  unfold kinds_distinct. rewrite !NoDup_cons_iff. cbn [In].
  intuition congruence.
Qed.

(** Decide every comparison of kinds in the goal from the disequalities
    at hand. *)
Ltac decide_kinds :=
  repeat match goal with
         | |- context [?a =? ?a] => rewrite (Z.eqb_refl a)
         | |- context [?a =? ?b] =>
             destruct (Z.eqb_spec a b); [congruence|]
         end.

Section BlockNode.

Variable FIFF : constants.
Variable kind : Z.
Variable mat : NamedMatrix.
Hypothesis Hkinds : kinds_distinct FIFF kind.

Notation blk := (block_node FIFF kind mat).

Ltac open_block :=
  destruct (kinds_distinct_neq FIFF kind Hkinds)
    as (? & ? & ? & ? & ? & ? & ? & ? & ? & ?);
  unfold find_tag_dir, has_tag_dir, block_node, block_tags, names_tags;
  cbn [directory];
  destruct (row_names mat) as [|? ?]; destruct (col_names mat) as [|? ?];
  cbn [List.length Nat.ltb Nat.leb app find existsb tag_kind orb];
  decide_kinds; cbn [orb].

Lemma block_has_matrix : has_tag_dir blk kind = true.
Proof. open_block; reflexivity. Qed.

Lemma block_find_matrix (fid : stream) :
  find_tag_dir fid blk kind =
  Some {| tag_kind := kind; tag_data := DMat (stored (data mat)) |}.
Proof. open_block; reflexivity. Qed.

Lemma block_find_nrow (fid : stream) :
  find_tag_dir fid blk (FIFF_MNE_NROW FIFF) =
  Some {| tag_kind := FIFF_MNE_NROW FIFF; tag_data := DInt (nrow mat) |}.
Proof. open_block; reflexivity. Qed.

Lemma block_find_ncol (fid : stream) :
  find_tag_dir fid blk (FIFF_MNE_NCOL FIFF) =
  Some {| tag_kind := FIFF_MNE_NCOL FIFF; tag_data := DInt (ncol mat) |}.
Proof. open_block; reflexivity. Qed.

Lemma block_find_row_names (fid : stream) :
  find_tag_dir fid blk (FIFF_MNE_ROW_NAMES FIFF) =
  match row_names mat with
  | [] => None
  | _ :: _ => Some {| tag_kind := FIFF_MNE_ROW_NAMES FIFF;
                      tag_data := DStr (join (String colon "")
                                             (row_names mat)) |}
  end.
Proof. open_block; reflexivity. Qed.

Lemma block_find_col_names (fid : stream) :
  find_tag_dir fid blk (FIFF_MNE_COL_NAMES FIFF) =
  match col_names mat with
  | [] => None
  | _ :: _ => Some {| tag_kind := FIFF_MNE_COL_NAMES FIFF;
                      tag_data := DStr (join (String colon "")
                                             (col_names mat)) |}
  end.
Proof. open_block; reflexivity. Qed.

End BlockNode.

(** ** Writing, then reading *)

Lemma size_ok_shape (mat : NamedMatrix) :
  nrow mat = Z.of_nat (fst (shape (data mat))) ->
  ncol mat = Z.of_nat (snd (shape (data mat))) ->
  size_ok mat = true.
Proof.
  intros Hr Hc. unfold size_ok, size.
  rewrite Hr, Hc, Nat2Z.inj_mul. apply Z.eqb_refl.
Qed.

(** A successful write appends the block of the matrix. *)
Lemma write_ok (FIFF : constants) (kind : Z) (w : world) :
  size_ok (w_mat w) = true ->
  names_fit (row_names (w_mat w)) (nrow (w_mat w)) ->
  names_fit (col_names (w_mat w)) (ncol (w_mat w)) ->
  write_named_matrix FIFF kind w =
  (Ok tt, extend w (block_items FIFF kind (w_mat w))).
Proof.
  intros Hsz Hr Hc. rewrite write_named_matrix_cases, Hsz.
  rewrite (proj2 (names_bad_false _ _) Hr).
  rewrite (proj2 (names_bad_false _ _) Hc).
  reflexivity.
Qed.

(** The names tag of a block decodes to the list that was written, when
    no name holds a colon. *)
Lemma block_decodes (kind : Z) (names : list string) :
  colon_free names ->
  decodes_to
    match names with
    | [] => None
    | _ :: _ => Some {| tag_kind := kind;
                        tag_data := DStr (join (String colon "") names) |}
    end names.
Proof.
  intros Hfree. destruct names as [|x l] eqn:E; [reflexivity|].
  cbn [decodes_to tag_data]. eexists. split; [reflexivity|].
  symmetry. apply split_join; [discriminate | exact Hfree].
Qed.

(** C2, as the specification states it, fails: a record of one row whose
    row name is ["a:b"] meets the conditions, is written, and is read back
    with the two row names ["a"] and ["b"]. *)
Lemma roundtrip_fails_on_colon :
  nrow mat_colon = Z.of_nat (fst (shape (data mat_colon))) /\
  ncol mat_colon = Z.of_nat (snd (shape (data mat_colon))) /\
  Z.of_nat (size (data mat_colon)) = nrow mat_colon * ncol mat_colon /\
  names_fit (row_names mat_colon) (nrow mat_colon) /\
  names_fit (col_names mat_colon) (ncol mat_colon) /\
  write_named_matrix FIFF0 1000 {| w_mat := mat_colon; w_fid := [] |} =
  (Ok tt, {| w_mat := mat_colon; w_fid := block_items FIFF0 1000 mat_colon |})
  /\
  make_dir_tree (block_items FIFF0 1000 mat_colon) =
  Some (mk_node 0 1 [block_node FIFF0 1000 mat_colon] [])
  /\
  exists mat',
    _read_named_matrix FIFF0 has_tag_dir find_tag_dir
      (block_items FIFF0 1000 mat_colon) (block_node FIFF0 1000 mat_colon)
      1000 false = Ok (Some mat')
    /\ row_names mat' = ["a"; "b"]
    /\ row_names mat' <> row_names mat_colon.
Proof.
  repeat (split; [first [reflexivity | right; reflexivity | left; reflexivity]|]).
  eexists. split; [reflexivity|]. split; [reflexivity|].
  cbn. discriminate.
Qed.

(** C2, amended: for a record whose [data] has the shape
    ([nrow], [ncol]) (so that the element count matches), whose name
    lists are empty or of the length of their dimension, and none of whose
    names holds a colon, written under a tag kind that is none of the four
    metadata kinds: the write succeeds and appends one block; the node of
    that block, read with the same kind, gives a record with the same
    [nrow], [ncol], [row_names] and [col_names] and with [data] of the same
    shape and elements, identical to the original when the original array
    is C-contiguous.  Row names ["A"; "B"; "C"] are written as the string
    "A:B:C" and read back as ["A"; "B"; "C"]. *)
Theorem write_read_roundtrip (FIFF : constants) (kind : Z) (fid : stream)
        (mat : NamedMatrix) :
  kinds_distinct FIFF kind ->
  nrow mat = Z.of_nat (fst (shape (data mat))) ->
  ncol mat = Z.of_nat (snd (shape (data mat))) ->
  names_fit (row_names mat) (nrow mat) ->
  names_fit (col_names mat) (ncol mat) ->
  colon_free (row_names mat) ->
  colon_free (col_names mat) ->
  let items := block_items FIFF kind mat in
  let blk := block_node FIFF kind mat in
  write_named_matrix FIFF kind {| w_mat := mat; w_fid := fid |} =
  (Ok tt, {| w_mat := mat; w_fid := fid ++ items |})
  /\
  make_dir_tree items = Some (mk_node 0 1 [blk] [])
  /\
  exists mat',
    _read_named_matrix FIFF has_tag_dir find_tag_dir (fid ++ items) blk kind
      false = Ok (Some mat')
    /\ same_matrix mat' mat
    /\ (c_contiguous (data mat) -> mat' = mat)
    /\ (row_names mat = ["A"; "B"; "C"] ->
        In (TagItem {| tag_kind := FIFF_MNE_ROW_NAMES FIFF;
                       tag_data := DStr "A:B:C" |}) items
        /\ row_names mat' = ["A"; "B"; "C"]).
Proof.
  intros Hk Hr Hc Hfr Hfc Hcr Hcc. cbn zeta.
  split.
  { apply (write_ok FIFF kind {| w_mat := mat; w_fid := fid |});
      [now apply size_ok_shape | exact Hfr | exact Hfc]. }
  split; [apply make_dir_tree_block|].
  exists (assembled (stored (data mat)) (row_names mat) (col_names mat) false).
  split.
  { rewrite (read_after_locate FIFF has_tag_dir find_tag_dir _
               (block_node FIFF kind mat) (block_node FIFF kind mat)).
    - rewrite (read_located_ok FIFF find_tag_dir _ _ kind false
                 {| tag_kind := kind; tag_data := DMat (stored (data mat)) |}
                 (stored (data mat)) (row_names mat) (col_names mat)).
      + reflexivity.
      + now apply block_find_matrix.
      + reflexivity.
      + rewrite block_find_nrow by exact Hk. cbn. now f_equal.
      + rewrite block_find_ncol by exact Hk. cbn. now f_equal.
      + rewrite block_find_row_names by exact Hk. now apply block_decodes.
      + rewrite block_find_col_names by exact Hk. now apply block_decodes.
    - unfold locate. cbn [block block_node]. rewrite Z.eqb_refl. cbn [negb].
      fold (block_node FIFF kind mat).
      now rewrite block_has_matrix. }
  split.
  { unfold same_matrix, assembled.
    cbn [nrow ncol row_names col_names data stored shape].
    repeat split; try (symmetry; assumption).
    apply tolist_stored. }
  split.
  { intros Hcont. unfold assembled. rewrite (stored_contiguous _ Hcont).
    destruct mat as [r c rn cn d]. cbn in *. now subst. }
  intros Hrows. split; [|exact Hrows].
  unfold block_items. rewrite Hrows.
  apply in_or_app. right. apply in_or_app. left.
  left. reflexivity.
Qed.

(** The 3 x 4 record with row names A, B, C is read back as it was
    written. *)
Lemma write_read_roundtrip_witness :
  write_named_matrix FIFF0 1000 {| w_mat := mat34; w_fid := [] |} =
  (Ok tt, {| w_mat := mat34; w_fid := [] ++ block_items FIFF0 1000 mat34 |})
  /\
  make_dir_tree (block_items FIFF0 1000 mat34) =
  Some (mk_node 0 1 [block_node FIFF0 1000 mat34] [])
  /\
  exists mat',
    _read_named_matrix FIFF0 has_tag_dir find_tag_dir
      ([] ++ block_items FIFF0 1000 mat34) (block_node FIFF0 1000 mat34) 1000
      false = Ok (Some mat')
    /\ same_matrix mat' mat34
    /\ (c_contiguous (data mat34) -> mat' = mat34)
    /\ (row_names mat34 = ["A"; "B"; "C"] ->
        In (TagItem {| tag_kind := FIFF_MNE_ROW_NAMES FIFF0;
                       tag_data := DStr "A:B:C" |})
           (block_items FIFF0 1000 mat34)
        /\ row_names mat' = ["A"; "B"; "C"]).
Proof.
  apply (write_read_roundtrip FIFF0 1000 [] mat34).
  - unfold kinds_distinct. cbn.
    repeat (constructor; [cbn; intuition discriminate|]). constructor.
  - reflexivity.
  - reflexivity.
  - right. reflexivity.
  - left. reflexivity.
  - intros s [<-|[<-|[<-|[]]]]; reflexivity.
  - intros s [].
Defined.

(** * Further properties of the codec *)

(** ** The reader: bounds of the search *)

Section ReaderBounds.

Variable FIFF : constants.
Variable has_tag : node -> Z -> bool.
Variable find_tag : stream -> node -> Z -> option Tag.

Notation locate := (locate FIFF has_tag).
Notation descend := (descend FIFF has_tag).
Notation matches := (matches FIFF has_tag).
Notation read_located := (read_located FIFF find_tag).
Notation _read_named_matrix := (_read_named_matrix FIFF has_tag find_tag).

(** The loop over [n] indices from [s] on, all in range, looks at the
    [n] children from [s] on and at no other. *)
Lemma descend_firstn (nd : node) (matkind : Z) (n s : nat) :
  (s + n <= List.length (children nd))%nat ->
  descend nd matkind (seq s n) =
  Ok (find (matches matkind) (firstn n (skipn s (children nd)))).
Proof.
  revert s. induction n as [|n IH]; intros s Hs; [reflexivity|].
  destruct (skipn_cons (children nd) s) as [c [Hc Hk]]; [lia|].
  cbn [seq descend]. rewrite Hc, Hk. cbn [firstn find].
  unfold matches at 1.
  destruct (block c =? _); cbn [andb].
  - destruct (has_tag c matkind); [reflexivity|].
    rewrite IH by lia. reflexivity.
  - rewrite IH by lia. reflexivity.
Qed.


(** X1: under a node that is not a named-matrix block and announces no
    more children than it has, only the first [nchild] children are
    searched: the located node is the first match among them, later
    children are never used, and no error is raised. *)
Theorem locate_within_nchild (nd : node) (matkind : Z) :
  block nd <> FIFFB_MNE_NAMED_MATRIX FIFF ->
  (nchild nd <= List.length (children nd))%nat ->
  locate nd matkind =
  Ok (find (matches matkind) (firstn (nchild nd) (children nd))).
Proof.
  intros Hb Hn. unfold locate.
  rewrite (proj2 (Z.eqb_neq _ _) Hb). cbn [negb].
  rewrite descend_firstn by (cbn; exact Hn). reflexivity.
Qed.


(** X3: reading through a parent is reading the child: when the node is
    not a named-matrix block and [c] is the first of its children that is
    a named-matrix block carrying the tag, the reader gives on the node
    what it gives on [c] itself. *)
Theorem read_through_parent (fid : stream) (nd c : node) (matkind : Z)
        (transpose : bool) (pre post : list node) :
  nchild nd = List.length (children nd) ->
  block nd <> FIFFB_MNE_NAMED_MATRIX FIFF ->
  children nd = pre ++ c :: post ->
  (forall x, In x pre -> matches matkind x = false) ->
  matches matkind c = true ->
  _read_named_matrix fid nd matkind transpose =
  _read_named_matrix fid c matkind transpose.
Proof.
  intros Hn Hb Hch Hpre Hc.
  assert (Hnd : locate nd matkind = Ok (Some c)).
  { rewrite (locate_spec FIFF has_tag nd matkind Hn).
    unfold resolve_spec. rewrite (proj2 (Z.eqb_neq _ _) Hb), Hch.
    f_equal. now apply find_first. }
  assert (Hcc : locate c matkind = Ok (Some c)).
  { unfold matches in Hc. apply andb_true_iff in Hc. destruct Hc as [H1 H2].
    unfold locate. now rewrite H1, H2. }
  rewrite (read_after_locate FIFF has_tag find_tag fid nd c matkind
             transpose Hnd).
  rewrite (read_after_locate FIFF has_tag find_tag fid c c matkind
             transpose Hcc).
  reflexivity.
Qed.

End ReaderBounds.

(** One announced child of three: the second child, a match, is not
    looked at. *)
Lemma locate_within_nchild_witness :
  locate FIFF0 has_tag_dir node_one_child 1000 = Ok None.
Proof.
  refine (locate_within_nchild FIFF0 has_tag_dir node_one_child 1000 _ _).
  - discriminate.
  - cbn. lia.
Defined.


(** [tree0] is read as its second child. *)
Lemma read_through_parent_witness :
  _read_named_matrix FIFF0 has_tag_dir find_tag_dir [] tree0 1000 false =
  _read_named_matrix FIFF0 has_tag_dir find_tag_dir [] child_first 1000 false.
Proof.
  refine (read_through_parent FIFF0 has_tag_dir find_tag_dir [] tree0
            child_first 1000 false [child_other] [child_second]
            eq_refl _ eq_refl _ eq_refl).
  - discriminate.
  - intros x [<-|[]]. reflexivity.
Defined.

(** ** The reader: what a returned record is *)

Section ReaderRecord.

Variable FIFF : constants.
Variable has_tag : node -> Z -> bool.
Variable find_tag : stream -> node -> Z -> option Tag.

Notation locate := (locate FIFF has_tag).
Notation read_located := (read_located FIFF find_tag).
Notation _read_named_matrix := (_read_named_matrix FIFF has_tag find_tag).

(** Every way through the checks of the reader, remembering what each
    tag was. *)
Ltac read_cases :=
  repeat (cbn [rbind as_array ne_int split_colon];
          match goal with
          | |- context [match find_tag ?f ?n ?k with
                        | Some _ => _ | None => _ end] =>
              destruct (find_tag f n k) eqn:?
          | |- context [match tag_data ?t with
                        | DInt _ => _ | DStr _ => _ | DMat _ => _ end] =>
              destruct (tag_data t) eqn:?
          | |- context [as_array (tag_data ?t)] =>
              destruct (tag_data t) eqn:?
          | |- context [ne_int (tag_data ?t)] =>
              destruct (tag_data t) eqn:?
          | |- context [split_colon (tag_data ?t)] =>
              destruct (tag_data t) eqn:?
          | |- context [if (size ?x =? 1)%nat then _ else _] =>
              destruct (size x =? 1)%nat eqn:?
          | |- context [if negb ?b then _ else _] =>
              destruct (negb b) eqn:?
          | |- Raise _ = Ok _ -> _ => discriminate
          end).

(** A record the reader returns was assembled from an array payload and
    from what the names tags decode to. *)
Lemma read_located_inv (fid : stream) (nd : node) (matkind : Z)
      (transpose : bool) (mat : NamedMatrix) :
  read_located fid nd matkind transpose = Ok mat ->
  exists tag a rows cols,
    find_tag fid nd matkind = Some tag /\
    tag_data tag = DMat a /\
    decodes_to (find_tag fid nd (FIFF_MNE_ROW_NAMES FIFF)) rows /\
    decodes_to (find_tag fid nd (FIFF_MNE_COL_NAMES FIFF)) cols /\
    mat = assembled a rows cols transpose.
Proof.
  unfold read_located.
  destruct (find_tag fid nd matkind) as [tag|] eqn:Htag; [|discriminate].
  destruct (tag_data tag) as [v|s|a] eqn:Hdata; cbn [as_array rbind];
    try discriminate.
  destruct (shape a) as [r c] eqn:Hsh.
  read_cases;
    intros [= <-]; exists tag, a; eexists _, _;
    (split; [reflexivity|]); (split; [exact Hdata|]);
    unfold assembled; rewrite Hsh; cbn [fst snd];
    (refine (conj _ (conj _ eq_refl)));
    cbn [decodes_to]; try reflexivity;
    eexists; (split; [eassumption | reflexivity]).
Qed.

End ReaderRecord.

Lemma split_length (c : ascii) (s : string) :
  List.length (split c s) = S (count_char c s).
Proof.
  induction s as [|a s IH]; [reflexivity|].
  cbn [split count_char]. destruct (Ascii.eqb a c).
  - cbn [List.length]. now rewrite IH.
  - destruct (split c s) as [|h t]; [discriminate IH | exact IH].
Qed.

Lemma well_shaped_assembled (a : ndarray) (rows cols : list string)
      (transpose : bool) :
  well_shaped (assembled a rows cols transpose).
Proof.
  unfold well_shaped, assembled. destruct transpose; split; reflexivity.
Qed.

(** Every way through the checks of the reader. *)
Ltac reader_paths :=
  repeat (cbn [rbind as_array ne_int split_colon];
          match goal with
          | |- context [match ?o with Some _ => _ | None => _ end] =>
              destruct o
          | |- context [tag_data ?t] => destruct (tag_data t)
          | |- context [if (size ?x =? 1)%nat then _ else _] =>
              destruct (size x =? 1)%nat
          | |- context [if negb ?b then _ else _] => destruct (negb b)
          end);
  cbn [rbind as_array ne_int split_colon].

Section ReaderResult.

Variable FIFF : constants.
Variable has_tag : node -> Z -> bool.
Variable find_tag : stream -> node -> Z -> option Tag.

Notation locate := (locate FIFF has_tag).
Notation read_located := (read_located FIFF find_tag).
Notation _read_named_matrix := (_read_named_matrix FIFF has_tag find_tag).

Lemma read_located_transpose (fid : stream) (nd : node) (matkind : Z) :
  read_located fid nd matkind true =
  rbind (read_located fid nd matkind false)
        (fun mat => Ok (_transpose_named_matrix mat)).
Proof.
  unfold read_located.
  destruct (find_tag fid nd matkind) as [tag|]; [|reflexivity].
  destruct (tag_data tag) as [v|s|a]; cbn [as_array rbind];
    try reflexivity.
  destruct (shape a) as [r c].
  reader_paths; reflexivity.
Qed.

(** X4: reading with [transpose=True] is reading without and transposing
    what was read: the same [None], the same error, or the transposed
    record. *)
Theorem read_transpose_commutes (fid : stream) (nd : node) (matkind : Z) :
  _read_named_matrix fid nd matkind true =
  rbind (_read_named_matrix fid nd matkind false)
        (fun found => Ok (option_map _transpose_named_matrix found)).
Proof.
  unfold _read_named_matrix.
  destruct (locate nd matkind) as [[nd'|]|e]; cbn [rbind];
    try reflexivity.
  rewrite read_located_transpose.
  destruct (read_located fid nd' matkind false); reflexivity.
Qed.

Lemma read_well_shaped (fid : stream) (nd : node) (matkind : Z)
      (transpose : bool) (mat : NamedMatrix) :
  _read_named_matrix fid nd matkind transpose = Ok (Some mat) ->
  well_shaped mat.
Proof.
  unfold _read_named_matrix.
  destruct (locate nd matkind) as [[nd'|]|e]; cbn [rbind];
    try discriminate.
  destruct (read_located fid nd' matkind transpose) as [m|e] eqn:E;
    cbn [rbind]; [|discriminate].
  intros [= <-].
  apply read_located_inv in E.
  destruct E as (tag & a & rows & cols & _ & _ & _ & _ & ->).
  apply well_shaped_assembled.
Qed.

(** X5: a record the reader returns, transposed or not, has the
    dimensions of its array: [nrow] and [ncol] are the shape of [data],
    whatever the count tags of the node were, and [nrow * ncol] is the
    number of elements. *)
Theorem read_result_shape (fid : stream) (nd : node) (matkind : Z)
        (transpose : bool) (mat : NamedMatrix) :
  _read_named_matrix fid nd matkind transpose = Ok (Some mat) ->
  nrow mat = Z.of_nat (fst (shape (data mat))) /\
  ncol mat = Z.of_nat (snd (shape (data mat))) /\
  nrow mat * ncol mat = Z.of_nat (size (data mat)).
Proof.
  intros Hread.
  destruct (read_well_shaped fid nd matkind transpose mat Hread) as [Hr Hc].
  split; [exact Hr|]. split; [exact Hc|].
  rewrite Hr, Hc. unfold size. now rewrite Nat2Z.inj_mul.
Qed.

(** X6: in a record read without transposition from a located node, the
    row names are empty exactly when the node has no row-names tag; a tag
    that is there gives one name more than its string has colons (an empty
    string gives one empty name).  The same holds for the column names. *)
Theorem names_follow_tag (fid : stream) (nd0 nd : node) (matkind : Z)
        (mat : NamedMatrix) :
  locate nd0 matkind = Ok (Some nd) ->
  _read_named_matrix fid nd0 matkind false = Ok (Some mat) ->
  let counted (o : option Tag) (names : list string) :=
    match o with
    | None => names = []
    | Some t => exists s, tag_data t = DStr s /\ names = split colon s /\
                          List.length names = S (count_char colon s)
    end in
  counted (find_tag fid nd (FIFF_MNE_ROW_NAMES FIFF)) (row_names mat) /\
  counted (find_tag fid nd (FIFF_MNE_COL_NAMES FIFF)) (col_names mat).
Proof.
  intros Hloc. cbn zeta.
  rewrite (read_after_locate FIFF has_tag find_tag fid nd0 nd matkind false
             Hloc).
  destruct (read_located fid nd matkind false) as [m|e] eqn:E;
    cbn [rbind]; [|discriminate].
  intros [= <-].
  apply read_located_inv in E.
  destruct E as (tag & a & rows & cols & _ & _ & Hrows & Hcols & ->).
  unfold assembled. cbn [row_names col_names].
  unfold decodes_to in Hrows, Hcols.
  split.
  - destruct (find_tag fid nd (FIFF_MNE_ROW_NAMES FIFF)); [|exact Hrows].
    destruct Hrows as [s [Hs ->]]. exists s.
    split; [exact Hs|]. split; [reflexivity | apply split_length].
  - destruct (find_tag fid nd (FIFF_MNE_COL_NAMES FIFF)); [|exact Hcols].
    destruct Hcols as [s [Hs ->]]. exists s.
    split; [exact Hs|]. split; [reflexivity | apply split_length].
Qed.

End ReaderResult.

(** The 3 x 4 payload with two row names is returned as a 3 x 4 record. *)
Lemma read_result_shape_witness :
  let mat := {| nrow := 3; ncol := 4; row_names := ["A"; "B"];
                col_names := []; data := arr34 |} in
  nrow mat = Z.of_nat (fst (shape (data mat))) /\
  ncol mat = Z.of_nat (snd (shape (data mat))) /\
  nrow mat * ncol mat = Z.of_nat (size (data mat)).
Proof.
  exact (read_result_shape FIFF0 has_tag_dir find_tag_dir [] node_two_names
           1000 false _ eq_refl).
Defined.

(** The string "A:B" has one colon and gives two names; the absent
    column-names tag gives none. *)
Lemma names_follow_tag_witness :
  (exists s, DStr "A:B" = DStr s /\ ["A"; "B"] = split colon s /\
             List.length ["A"; "B"] = S (count_char colon s))
  /\ @nil string = [].
Proof.
  exact (names_follow_tag FIFF0 has_tag_dir find_tag_dir [] node_two_names
           node_two_names 1000
           {| nrow := 3; ncol := 4; row_names := ["A"; "B"];
              col_names := []; data := arr34 |} eq_refl eq_refl).
Defined.

(** ** The writer: when it succeeds *)

Lemma write_result_ok (FIFF : constants) (kind : Z) (w : world) :
  fst (write_named_matrix FIFF kind w) = Ok tt <->
  size_ok (w_mat w) = true /\
  names_fit (row_names (w_mat w)) (nrow (w_mat w)) /\
  names_fit (col_names (w_mat w)) (ncol (w_mat w)).
Proof.
  rewrite write_named_matrix_cases. cbn zeta.
  rewrite <- !names_bad_false.
  destruct (size_ok (w_mat w)); cbn [fst].
  - destruct (names_bad (row_names _) _); cbn [fst].
    + split; [discriminate | intros (_ & H & _); discriminate H].
    + destruct (names_bad (col_names _) _); cbn [fst].
      * split; [discriminate | intros (_ & _ & H); discriminate H].
      * split; [intros _; repeat split | reflexivity].
  - split; [discriminate | intros (H & _); discriminate H].
Qed.

(** X7: the writer returns exactly when the element count matches and
    each name list is empty or of the length of its dimension; it then
    has appended one whole block, from the start marker to the end
    marker, and nothing else. *)
Theorem write_succeeds_iff (FIFF : constants) (kind : Z) (w : world) :
  let mat := w_mat w in
  let outcome := write_named_matrix FIFF kind w in
  (fst outcome = Ok tt <->
   Z.of_nat (size (data mat)) = nrow mat * ncol mat /\
   (row_names mat = [] \/ Z.of_nat (List.length (row_names mat)) = nrow mat)
   /\
   (col_names mat = [] \/ Z.of_nat (List.length (col_names mat)) = ncol mat))
  /\
  (fst outcome = Ok tt ->
   snd outcome = extend w (block_items FIFF kind mat) /\
   exists tags,
     block_items FIFF kind mat =
     BlockStart (FIFFB_MNE_NAMED_MATRIX FIFF) :: map TagItem tags
     ++ [BlockEnd (FIFFB_MNE_NAMED_MATRIX FIFF)]).
Proof.
  cbn zeta. split.
  - rewrite write_result_ok. unfold size_ok, names_fit.
    now rewrite Z.eqb_eq.
  - intros Hok. apply write_result_ok in Hok.
    destruct Hok as (Hsz & Hr & Hc).
    rewrite (write_ok FIFF kind w Hsz Hr Hc). cbn [snd].
    split; [reflexivity|].
    exists (block_tags FIFF kind (w_mat w)). apply block_items_tags.
Qed.

(** The record with no names is written whole. *)
Lemma write_succeeds_iff_witness :
  snd (write_named_matrix FIFF0 1000 w_no_names)
  = extend w_no_names (block_items FIFF0 1000 (w_mat w_no_names)).
Proof.
  exact (proj1 (proj2 (write_succeeds_iff FIFF0 1000 w_no_names) eq_refl)).
Defined.

Lemma size_ok_transpose (mat : NamedMatrix) :
  size_ok (_transpose_named_matrix mat) = size_ok mat.
Proof.
  unfold size_ok, _transpose_named_matrix. cbn [nrow ncol data].
  now rewrite size_T, Z.mul_comm.
Qed.

(** X8: transposing a record does not change whether it can be written:
    the writer returns on the transposed record exactly when it returns
    on the record itself. *)
Theorem transpose_keeps_writable (FIFF : constants) (kind : Z)
        (fid : stream) (mat : NamedMatrix) :
  fst (write_named_matrix FIFF kind
         {| w_mat := _transpose_named_matrix mat; w_fid := fid |}) = Ok tt
  <->
  fst (write_named_matrix FIFF kind {| w_mat := mat; w_fid := fid |}) = Ok tt.
Proof.
  rewrite !write_result_ok. cbn [w_mat].
  rewrite size_ok_transpose.
  unfold _transpose_named_matrix. cbn [nrow ncol row_names col_names].
  tauto.
Qed.

Section ReadThenWrite.

Variable FIFF : constants.
Variable has_tag : node -> Z -> bool.
Variable find_tag : stream -> node -> Z -> option Tag.

(** X9: a record the reader returned passes the writer's element-count
    check, whatever constants and kind it is written under: the write
    returns when both name lists fit, and otherwise fails with the
    row-names or the column-names error and with no other. *)
Theorem read_then_write (fid : stream) (nd : node) (matkind : Z)
        (transpose : bool) (mat : NamedMatrix)
        (FIFF' : constants) (kind : Z) (out : stream) :
  _read_named_matrix FIFF has_tag find_tag fid nd matkind transpose
  = Ok (Some mat) ->
  let outcome :=
    fst (write_named_matrix FIFF' kind {| w_mat := mat; w_fid := out |}) in
  (outcome = Ok tt <->
   names_fit (row_names mat) (nrow mat) /\
   names_fit (col_names mat) (ncol mat))
  /\
  (outcome = Ok tt \/ outcome = Raise (ValueError RowNamesLength)
   \/ outcome = Raise (ValueError ColNamesLength)).
Proof.
  intros Hread. cbn zeta.
  assert (Hsz : size_ok mat = true).
  { destruct (read_well_shaped FIFF has_tag find_tag fid nd matkind
                transpose mat Hread) as [Hr Hc].
    now apply size_ok_shape. }
  split.
  - rewrite write_result_ok. cbn [w_mat]. rewrite Hsz. tauto.
  - rewrite write_named_matrix_cases. cbn [w_mat]. rewrite Hsz.
    destruct (names_bad (row_names mat) _); [right; left; reflexivity|].
    destruct (names_bad (col_names mat) _); [right; right; reflexivity|].
    left; reflexivity.
Qed.

End ReadThenWrite.

(** The record read from the node with two row names over three rows is
    refused by the writer for its row names. *)
Lemma read_then_write_witness :
  fst (write_named_matrix FIFF0 1000
         {| w_mat := {| nrow := 3; ncol := 4; row_names := ["A"; "B"];
                        col_names := []; data := arr34 |};
            w_fid := [] |})
  = Raise (ValueError RowNamesLength).
Proof.
  destruct (proj2 (read_then_write FIFF0 has_tag_dir find_tag_dir []
                     node_two_names 1000 false
                     {| nrow := 3; ncol := 4; row_names := ["A"; "B"];
                        col_names := []; data := arr34 |}
                     FIFF0 1000 [] eq_refl)) as [H|[H|H]].
  - discriminate H.
  - exact H.
  - discriminate H.
Defined.

(** ** Name lists: [join] after [split] *)

Lemma split_not_nil (c : ascii) (s : string) : split c s <> [].
Proof.
  intros H. assert (L := split_length c s). rewrite H in L. discriminate L.
Qed.

Lemma join_cons_char (sep : string) (a : ascii) (h : string)
      (t : list string) :
  join sep (String a h :: t) = String a (join sep (h :: t)).
Proof. destruct t; reflexivity. Qed.

(** X10: joining what [split] gives restores the string, for every
    string: the names read from a names tag, written again as a name list,
    give the tag's string back, colons, empty names and all. *)
Theorem join_split (s : string) :
  join (String colon "") (split colon s) = s.
Proof.
  induction s as [|a s IH]; [reflexivity|].
  cbn [split]. destruct (Ascii.eqb a colon) eqn:Ha.
  - apply Ascii.eqb_eq in Ha. subst a.
    destruct (split colon s) as [|h t] eqn:E; [now elim (split_not_nil colon s)|].
    change (join (String colon "") ("" :: h :: t))
      with (String colon (join (String colon "") (h :: t))).
    now rewrite IH.
  - destruct (split colon s) as [|h t] eqn:E; [now elim (split_not_nil colon s)|].
    rewrite join_cons_char. now rewrite IH.
Qed.

(** ** Blocks among other blocks, and transposed records *)

Lemma getitem_stored (a : ndarray) (i j : nat) :
  (i < fst (shape a))%nat -> (j < snd (shape a))%nat ->
  getitem (stored a) i j = getitem a i j.
Proof.
  intros Hi Hj. unfold getitem at 1. cbn [stored strides buf fst snd].
  rewrite Nat.mul_1_r. unfold ravel, tolist.
  etransitivity;
    [exact (nth_concat_rows (getitem a) (snd (shape a)) (fst (shape a)) 0
              i j Hi Hj)|].
  reflexivity.
Qed.

(** What is stored of a transposed view, transposed again, holds the
    elements of the array. *)
Lemma array_equal_T_stored_T (a : ndarray) :
  array_equal (T (stored (T a))) a.
Proof.
  split.
  - cbn [T stored shape]. apply swap_swap.
  - unfold tolist. cbn [T stored shape]. rewrite swap_swap.
    apply map_ext_in. intros i Hi. apply in_seq in Hi.
    apply map_ext_in. intros j Hj. apply in_seq in Hj.
    rewrite getitem_T.
    rewrite getitem_stored by (cbn [T shape swap fst snd]; lia).
    apply getitem_T.
Qed.

(** The block of a portable record is read as the record that was
    written, with the array as it was stored. *)
Lemma read_block (FIFF : constants) (kind : Z) (mat : NamedMatrix)
      (fid : stream) (transpose : bool) :
  portable FIFF kind mat ->
  read_located FIFF find_tag_dir fid (block_node FIFF kind mat) kind transpose
  = Ok (assembled (stored (data mat)) (row_names mat) (col_names mat)
          transpose).
Proof.
  intros (Hk & [Hr Hc] & _ & _ & Hcr & Hcc).
  apply (read_located_ok FIFF find_tag_dir fid _ kind transpose
           {| tag_kind := kind; tag_data := DMat (stored (data mat)) |}).
  - now apply block_find_matrix.
  - reflexivity.
  - rewrite block_find_nrow by exact Hk. cbn. now f_equal.
  - rewrite block_find_ncol by exact Hk. cbn. now f_equal.
  - rewrite block_find_row_names by exact Hk. now apply block_decodes.
  - rewrite block_find_col_names by exact Hk. now apply block_decodes.
Qed.

Lemma locate_block (FIFF : constants) (kind : Z) (mat : NamedMatrix) :
  kinds_distinct FIFF kind ->
  locate FIFF has_tag_dir (block_node FIFF kind mat) kind
  = Ok (Some (block_node FIFF kind mat)).
Proof.
  intros Hk. unfold locate. cbn [block block_node]. rewrite Z.eqb_refl.
  cbn [negb]. fold (block_node FIFF kind mat).
  now rewrite block_has_matrix.
Qed.

Lemma portable_transpose (FIFF : constants) (kind : Z) (mat : NamedMatrix) :
  portable FIFF kind mat -> portable FIFF kind (_transpose_named_matrix mat).
Proof.
  intros (Hk & [Hr Hc] & Hfr & Hfc & Hcr & Hcc).
  unfold portable, well_shaped, _transpose_named_matrix.
  cbn [nrow ncol row_names col_names data T shape swap fst snd].
  repeat split; assumption.
Qed.

(** X11: a portable record that is transposed, written, and read back
    with [transpose=True] is the record again: the same [nrow], [ncol],
    [row_names] and [col_names], and [data] of the same shape and
    elements. *)
Theorem transposed_roundtrip (FIFF : constants) (kind : Z) (fid : stream)
        (mat : NamedMatrix) :
  portable FIFF kind mat ->
  let tmat := _transpose_named_matrix mat in
  let items := block_items FIFF kind tmat in
  write_named_matrix FIFF kind {| w_mat := tmat; w_fid := fid |} =
  (Ok tt, {| w_mat := tmat; w_fid := fid ++ items |})
  /\
  make_dir_tree items = Some (mk_node 0 1 [block_node FIFF kind tmat] [])
  /\
  exists mat',
    _read_named_matrix FIFF has_tag_dir find_tag_dir (fid ++ items)
      (block_node FIFF kind tmat) kind true = Ok (Some mat')
    /\ same_matrix mat' mat.
Proof.
  intros Hp. cbn zeta.
  assert (Ht := portable_transpose FIFF kind mat Hp).
  destruct Ht as (Hk & [Hr Hc] & Hfr & Hfc & Hcr & Hcc).
  split.
  { apply (write_ok FIFF kind
             {| w_mat := _transpose_named_matrix mat; w_fid := fid |});
      [now apply size_ok_shape | exact Hfr | exact Hfc]. }
  split; [apply make_dir_tree_block|].
  eexists. split.
  { rewrite (read_after_locate FIFF has_tag_dir find_tag_dir _ _ _ kind true
               (locate_block FIFF kind _ Hk)).
    rewrite read_block by (apply portable_transpose; exact Hp).
    reflexivity. }
  destruct Hp as (_ & [Hr0 Hc0] & _).
  unfold same_matrix, assembled, _transpose_named_matrix.
  cbn [nrow ncol row_names col_names data stored shape T swap fst snd].
  repeat split; try (symmetry; assumption).
  - apply (proj1 (array_equal_T_stored_T (data mat))).
  - apply (proj2 (array_equal_T_stored_T (data mat))).
Qed.

Lemma portable_mat34 : portable FIFF0 1000 mat34.
Proof.
  unfold portable, well_shaped, names_fit, kinds_distinct. cbn.
  repeat split.
  - repeat (constructor; [cbn; intuition discriminate|]). constructor.
  - now right.
  - now left.
  - intros s [<-|[<-|[<-|[]]]]; reflexivity.
  - intros s [].
Qed.

(** The 3 x 4 record goes through the stream as a 4 x 3 block. *)
Lemma transposed_roundtrip_witness :
  exists mat',
    _read_named_matrix FIFF0 has_tag_dir find_tag_dir
      ([] ++ block_items FIFF0 1000 (_transpose_named_matrix mat34))
      (block_node FIFF0 1000 (_transpose_named_matrix mat34)) 1000 true
    = Ok (Some mat')
    /\ same_matrix mat' mat34.
Proof.
  exact (proj2 (proj2 (transposed_roundtrip FIFF0 1000 [] mat34
                         portable_mat34))).
Defined.

Lemma build_block (FIFF : constants) (kind : Z) (mat : NamedMatrix)
      (rest : stream) (top : frame) (stack : list frame) :
  build (block_items FIFF kind mat ++ rest) top stack =
  build rest {| f_block := f_block top; f_tags := f_tags top;
                f_children := f_children top ++ [block_node FIFF kind mat] |}
        stack.
Proof.
  rewrite block_items_tags. cbn [app build].
  rewrite <- app_assoc, build_tags.
  cbn [app build f_block f_tags f_children]. rewrite Z.eqb_refl.
  reflexivity.
Qed.

(** The block written under one kind carries no tag of another kind that
    is not a metadata kind. *)
Lemma block_lacks (FIFF : constants) (kind other : Z) (mat : NamedMatrix) :
  kinds_distinct FIFF other -> kind <> other ->
  has_tag_dir (block_node FIFF kind mat) other = false.
Proof.
  intros Hk Hne.
  destruct (kinds_distinct_neq FIFF other Hk)
    as (? & ? & ? & ? & ? & ? & ? & ? & ? & ?).
  unfold has_tag_dir, block_node, block_tags, names_tags. cbn [directory].
  destruct (row_names mat) as [|? ?]; destruct (col_names mat) as [|? ?];
    cbn [List.length Nat.ltb Nat.leb app existsb tag_kind];
    decide_kinds; reflexivity.
Qed.

Lemma same_matrix_assembled (mat : NamedMatrix) :
  well_shaped mat ->
  same_matrix
    (assembled (stored (data mat)) (row_names mat) (col_names mat) false) mat.
Proof.
  intros [Hr Hc]. unfold same_matrix, assembled.
  cbn [nrow ncol row_names col_names data stored shape].
  repeat split; try (symmetry; assumption).
  apply tolist_stored.
Qed.

(** X12: two portable records written one after the other under two
    different kinds make two sibling blocks, and each is read back from
    their parent by its kind: the search passes over the block that does
    not carry the kind asked for. *)
Theorem siblings_read_by_kind (FIFF : constants) (k1 k2 : Z)
        (m1 m2 : NamedMatrix) :
  portable FIFF k1 m1 -> portable FIFF k2 m2 -> k1 <> k2 ->
  FIFFB_MNE_NAMED_MATRIX FIFF <> 0 ->
  let w1 := snd (write_named_matrix FIFF k1 {| w_mat := m1; w_fid := [] |}) in
  let w2 := snd (write_named_matrix FIFF k2
                   {| w_mat := m2; w_fid := w_fid w1 |}) in
  exists root,
    make_dir_tree (w_fid w2) = Some root /\
    children root = [block_node FIFF k1 m1; block_node FIFF k2 m2] /\
    exists r1 r2,
      _read_named_matrix FIFF has_tag_dir find_tag_dir (w_fid w2) root k1
        false = Ok (Some r1) /\
      same_matrix r1 m1 /\
      _read_named_matrix FIFF has_tag_dir find_tag_dir (w_fid w2) root k2
        false = Ok (Some r2) /\
      same_matrix r2 m2.
Proof.
  intros Hp1 Hp2 Hne Hnm. cbn zeta.
  assert (Hq1 := Hp1). assert (Hq2 := Hp2).
  destruct Hq1 as (Hk1 & Hs1 & Hfr1 & Hfc1 & _).
  destruct Hq2 as (Hk2 & Hs2 & Hfr2 & Hfc2 & _).
  rewrite (write_ok FIFF k1 {| w_mat := m1; w_fid := [] |})
    by (try assumption; destruct Hs1; now apply size_ok_shape).
  cbn [snd extend w_fid w_mat app].
  rewrite (write_ok FIFF k2 {| w_mat := m2; w_fid := _ |})
    by (try assumption; destruct Hs2; now apply size_ok_shape).
  cbn [snd extend w_fid w_mat].
  set (b1 := block_node FIFF k1 m1). set (b2 := block_node FIFF k2 m2).
  exists (mk_node 0 2 [b1; b2] []).
  split.
  { unfold make_dir_tree. rewrite build_block.
    rewrite <- (app_nil_r (block_items FIFF k2 m2)), build_block.
    reflexivity. }
  split; [reflexivity|].
  assert (Hb1 : has_tag_dir b1 k1 = true) by now apply block_has_matrix.
  assert (Hb2 : has_tag_dir b2 k2 = true) by now apply block_has_matrix.
  assert (Hb12 : has_tag_dir b1 k2 = false) by now apply block_lacks.
  assert (Hroot : (0 =? FIFFB_MNE_NAMED_MATRIX FIFF) = false).
  { apply Z.eqb_neq. intros E. now elim Hnm. }
  assert (Hl1 : locate FIFF has_tag_dir (mk_node 0 2 [b1; b2] []) k1
                = Ok (Some b1)).
  { unfold locate. cbn [block nchild seq descend children nth_error].
    rewrite Hroot. cbn [negb].
    unfold b1 at 1. cbn [block block_node]. fold b1.
    rewrite Z.eqb_refl, Hb1. reflexivity. }
  assert (Hl2 : locate FIFF has_tag_dir (mk_node 0 2 [b1; b2] []) k2
                = Ok (Some b2)).
  { unfold locate. cbn [block nchild seq descend children nth_error].
    rewrite Hroot. cbn [negb].
    unfold b1 at 1. cbn [block block_node]. fold b1.
    rewrite Z.eqb_refl, Hb12.
    unfold b2 at 1. cbn [block block_node]. fold b2.
    rewrite Z.eqb_refl, Hb2. reflexivity. }
  eexists _, _.
  rewrite (read_after_locate FIFF has_tag_dir find_tag_dir _ _ _ k1 false Hl1).
  rewrite (read_after_locate FIFF has_tag_dir find_tag_dir _ _ _ k2 false Hl2).
  unfold b1, b2. rewrite !read_block by assumption. cbn [rbind].
  split; [reflexivity|]. split; [now apply same_matrix_assembled|].
  split; [reflexivity|]. now apply same_matrix_assembled.
Qed.

Lemma portable_mat23 : portable FIFF0 1001 mat23.
Proof.
  unfold portable, well_shaped, names_fit, kinds_distinct. cbn.
  repeat split.
  - repeat (constructor; [cbn; intuition discriminate|]). constructor.
  - now left.
  - now right.
  - intros s [].
  - intros s [<-|[<-|[<-|[]]]]; reflexivity.
Qed.

(** The 3 x 4 record under kind 1000, then the 2 x 3 record under kind
    1001. *)
Lemma siblings_read_by_kind_witness :
  let w1 := snd (write_named_matrix FIFF0 1000
                   {| w_mat := mat34; w_fid := [] |}) in
  let w2 := snd (write_named_matrix FIFF0 1001
                   {| w_mat := mat23; w_fid := w_fid w1 |}) in
  exists root,
    make_dir_tree (w_fid w2) = Some root /\
    children root = [block_node FIFF0 1000 mat34;
                     block_node FIFF0 1001 mat23] /\
    exists r1 r2,
      _read_named_matrix FIFF0 has_tag_dir find_tag_dir (w_fid w2) root 1000
        false = Ok (Some r1) /\
      same_matrix r1 mat34 /\
      _read_named_matrix FIFF0 has_tag_dir find_tag_dir (w_fid w2) root 1001
        false = Ok (Some r2) /\
      same_matrix r2 mat23.
Proof.
  refine (siblings_read_by_kind FIFF0 1000 1001 mat34 mat23 portable_mat34
            portable_mat23 _ _); discriminate.
Defined.

(** ** The factor of the element-count error *)




